(** * fetch_receipts.py: download of the receipts of the Lower House

    A shallow embedding of [src/fetch_receipts.py]: the record source
    ([Receipts]), the receipt descriptor ([Receipt], with its [path] and
    [url]), the worker ([download_receipt]) and the dispatch loop ([run]).

    Python values are modelled by their own types; the operating system,
    the dataset files and the HTTP server are one record, [World], that every
    effectful function threads.  Exceptions are the [Raise] branch of
    [pyresult].  The worker pool is modelled by what [pool.imap] hands to the
    [for] loop: the results of the batch, in the order of the batch, under
    the schedule that runs the workers one after the other. *)

From Stdlib Require Import ZArith Lia Strings.Ascii Strings.String.
From stdpp Require Import gmap strings list pretty.

Local Open Scope Z_scope.
Local Open Scope string_scope.
Local Open Scope list_scope.

(** ** Python values and strings *)

(** A cell of a data frame row: an integer, a string, or the float NaN that
    pandas puts where a field is missing.  Other floats are not modelled. *)
Inductive pyval :=
  | PyInt (z : Z)
  | PyStr (s : string)
  | PyNaN.

#[global] Instance pyval_eq_dec : EqDecision pyval.
Proof. solve_decision. Defined.

(** [str(v)] *)
Definition py_str (v : pyval) : string :=
  match v with
  | PyInt z => pretty z
  | PyStr s => s
  | PyNaN => "nan"
  end.

(** [format(v, '')], what a replacement field [{name}] with no format
    specification calls on its value. *)
Definition py_format_value (v : pyval) : string :=
  match v with
  | PyInt z => pretty z
  | PyStr s => s
  | PyNaN => "nan"
  end.

(** [pd.isnull(v)] on a scalar. *)
Definition isnull (v : pyval) : bool :=
  match v with
  | PyNaN => true
  | _ => false
  end.

Definition is_sep (a : ascii) : bool := bool_decide (a = "/"%char).

Fixpoint lookup_kw (name : string) (kwargs : list (string * pyval)) : option pyval :=
  match kwargs with
  | [] => None
  | (k, v) :: rest => if String.eqb k name then Some v else lookup_kw name rest
  end.

(** [recipe.format] with keyword arguments, for recipes whose replacement fields are plain
    names: [field] is [Some n] while the scan is inside braces, [n] being
    the part of the field name read so far.  [None] stands for the
    [KeyError] of an unknown name and the [ValueError] of an open brace. *)
Fixpoint format_from (recipe : string) (field : option string)
    (kwargs : list (string * pyval)) : option string :=
  match recipe, field with
  | EmptyString, None => Some ""
  | EmptyString, Some _ => None
  | String c rest, None =>
      if bool_decide (c = "{"%char) then format_from rest (Some "") kwargs
      else String c <$> format_from rest None kwargs
  | String c rest, Some name =>
      if bool_decide (c = "}"%char) then
        match lookup_kw name kwargs with
        | Some v => (fun s => py_format_value v +:+ s) <$> format_from rest None kwargs
        | None => None
        end
      else format_from rest (Some (name +:+ String c "")) kwargs
  end.

Definition format (recipe : string) (kwargs : list (string * pyval)) : option string :=
  format_from recipe None kwargs.

(** ** posixpath *)

(** [s.startswith('/')] and [s.endswith('/')] *)
Definition startswith_sep (s : string) : bool :=
  match s with
  | String c _ => is_sep c
  | EmptyString => false
  end.

Fixpoint endswith_sep (s : string) : bool :=
  match s with
  | EmptyString => false
  | String c EmptyString => is_sep c
  | String _ rest => endswith_sep rest
  end.

(** [s.split('/')] *)
Fixpoint split (s : string) : list string :=
  match s with
  | EmptyString => [""]
  | String c rest =>
      if is_sep c then "" :: split rest
      else match split rest with
           | h :: t => String c h :: t
           | [] => [String c ""]
           end
  end.

(** One round of the loop of [os.path.join]. *)
Definition join2 (path b : string) : string :=
  if startswith_sep b then b
  else if bool_decide (path = "") || endswith_sep path then path +:+ b
  else path +:+ "/" +:+ b.

Definition join (a : string) (p : list string) : string := foldl join2 a p.

(** The body of the loop of [os.path.normpath] over the components. *)
Definition normpath_step (initial_slashes : nat) (new_comps : list string)
    (comp : string) : list string :=
  if bool_decide (comp = "") || bool_decide (comp = ".") then new_comps
  else if negb (bool_decide (comp = ".."))
          || (bool_decide (initial_slashes = 0%nat) && bool_decide (new_comps = []))
          || bool_decide (last new_comps = Some "..")
       then new_comps ++ [comp]
       else removelast new_comps.

Definition initial_slashes (path : string) : nat :=
  match path with
  | String a (String b (String c _)) =>
      if is_sep a then if is_sep b && negb (is_sep c) then 2%nat else 1%nat else 0%nat
  | String a (String b EmptyString) =>
      if is_sep a then if is_sep b then 2%nat else 1%nat else 0%nat
  | String a EmptyString => if is_sep a then 1%nat else 0%nat
  | EmptyString => 0%nat
  end.

Fixpoint seps (n : nat) : string :=
  match n with
  | O => ""
  | S k => String "/" (seps k)
  end.

(** [os.path.normpath(path)] *)
Definition normpath (path : string) : string :=
  if bool_decide (path = "") then "."
  else
    let n := initial_slashes path in
    let comps := foldl (normpath_step n) [] (split path) in
    let p := seps n +:+ String.concat "/" comps in
    if bool_decide (p = "") then "." else p.

(** [os.getcwd()] is absolute: the working directory is kept as the list of
    its components. *)
Definition getcwd (cwd : list string) : string := "/" +:+ String.concat "/" cwd.

(** [os.path.abspath(path)] *)
Definition abspath (cwd : list string) (path : string) : string :=
  if startswith_sep path then normpath path
  else normpath (join (getcwd cwd) [path]).

(** ** Receipt *)

(** A row of a data frame, as [itertuples] gives it; only the columns the
    script reads. *)
Record Row := {
  row_applicant_id : pyval;
  row_year : pyval;
  row_document_id : pyval
}.

Record Receipt := {
  applicant_id : pyval;
  year : pyval;
  document_id : pyval;
  target : string
}.

#[global] Instance Receipt_eq_dec : EqDecision Receipt.
Proof. solve_decision. Defined.

(** [Receipt.__init__(self, receipt, target)] *)
Definition mkReceipt (receipt : Row) (tgt : string) : Receipt :=
  {| applicant_id := row_applicant_id receipt;
     year := row_year receipt;
     document_id := row_document_id receipt;
     target := tgt |}.

(** [Receipt.path(self)] *)
Definition path (cwd : list string) (self : Receipt) : string :=
  join (abspath cwd (target self))
       [py_str (applicant_id self);
        py_str (year self);
        py_str (document_id self) +:+ ".pdf"].

Definition base : string := "http://www.camara.gov.br/cota-parlamentar/documentos/publ/".
Definition recipe : string := "{base}{applicant_id}/{year}/{document_id}.pdf".

(** [Receipt.url]: the option of [format] is opened with the empty string,
    which the recipe never reaches (see [url_format]). *)
Definition url (self : Receipt) : string :=
  default "" (format recipe
                [("base", PyStr base);
                 ("applicant_id", applicant_id self);
                 ("year", year self);
                 ("document_id", document_id self)]).

(** [os.path.dirname(p)]: [upto_last_sep p] is [p[:p.rfind('/') + 1]],
    [all_sep head] is [head == '/' * len(head)] and [rstrip_sep] is
    [head.rstrip('/')]. *)
Fixpoint has_sep (s : string) : bool :=
  match s with
  | EmptyString => false
  | String c rest => is_sep c || has_sep rest
  end.

Fixpoint upto_last_sep (s : string) : string :=
  match s with
  | EmptyString => ""
  | String c rest =>
      if has_sep rest then String c (upto_last_sep rest)
      else if is_sep c then String c "" else ""
  end.

Fixpoint all_sep (s : string) : bool :=
  match s with
  | EmptyString => true
  | String c rest => is_sep c && all_sep rest
  end.

Fixpoint rstrip_sep (s : string) : string :=
  match s with
  | EmptyString => ""
  | String c rest =>
      let t := rstrip_sep rest in
      if is_sep c && bool_decide (t = "") then "" else String c t
  end.

Definition dirname (p : string) : string :=
  let head := upto_last_sep p in
  if negb (bool_decide (head = "")) && negb (all_sep head) then rstrip_sep head
  else head.

(** ** Exceptions and results *)

(** [urllib.error.HTTPError]: the status code and the reason of the answer. *)
Record HTTPError := { http_code : Z; http_msg : string }.

Inductive exn :=
  | RuntimeError (message : string)
  | HTTPErrorExn (e : HTTPError)
  | URLError (reason : string)
  | OSError (name : string)
  | ValueError (message : string)
  | TypeError (message : string).

Inductive pyresult (A : Type) :=
  | Return (a : A)
  | Raise (e : exn).
Arguments Return {A} a.
Arguments Raise {A} e.

(** ** The world the script runs in *)

(** What is at a place of the filesystem; the contents of a file are not
    modelled. *)
Inductive node := File | Dir.

#[global] Instance node_eq_dec : EqDecision node.
Proof. solve_decision. Defined.

(** The headers of an answer, [http.client.HTTPMessage], in order. *)
Definition HTTPMessage := list (string * string).

(** What the server does with a GET: it answers 2xx with headers, answers
    with an error status, or cannot be reached. *)
Inductive response :=
  | Answers (header : HTTPMessage)
  | Refuses (e : HTTPError)
  | Unreachable (reason : string).

(** What the run does to the outside, newest first: a dataset read by
    [pd.read_csv], a receipt handed to [download_receipt], a GET sent by
    [urlretrieve], and the status line printed after a result, kept as the
    four numbers it shows. *)
Inductive event :=
  | EvRead (dataset : string)
  | EvCall (receipt : Receipt)
  | EvGet (address filename : string)
  | EvPrint (downloaded bytes : Z) (nskipped nerrors : nat).

(** One line of a dataset file: the applicant and year cells as pandas
    infers them, the text of the document_id field as it is in the file. *)
Record Line := {
  line_applicant_id : pyval;
  line_year : pyval;
  line_document_id : string
}.

Record World := {
  cwd : list string;                (* working directory, by components *)
  script : string;                  (* [__file__] *)
  fs : gmap (list string) node;     (* files and directories, by components from the root *)
  listdir : list string;            (* [os.listdir(DATA_DIR)] *)
  csv : string -> list Line;        (* the lines of the dataset file at a path *)
  server : string -> response;      (* the answer of the server to GET url *)
  trace : list event
}.

Definition log (e : event) (w : World) : World :=
  {| cwd := cwd w; script := script w; fs := fs w; listdir := listdir w;
     csv := csv w; server := server w; trace := e :: trace w |}.

Definition set_fs (m : gmap (list string) node) (w : World) : World :=
  {| cwd := cwd w; script := script w; fs := m; listdir := listdir w;
     csv := csv w; server := server w; trace := trace w |}.

(** Effectful code: a state monad over the world, with exceptions. *)
Definition M (A : Type) : Type := World -> pyresult A * World.

Definition ret {A} (a : A) : M A := fun w => (Return a, w).
Definition raise {A} (e : exn) : M A := fun w => (Raise e, w).
Definition bind {A B} (m : M A) (f : A -> M B) : M B :=
  fun w => match m w with
           | (Return a, w') => f a w'
           | (Raise e, w') => (Raise e, w')
           end.
Definition getcwd_ : M (list string) := fun w => (Return (cwd w), w).
Definition emit (e : event) : M unit := fun w => (Return tt, log e w).

(** [try: body  except HTTPError as e: handler(e)] *)
Definition try_except_HTTPError {A} (body : M A) (handler : HTTPError -> M A) : M A :=
  fun w => match body w with
           | (Raise (HTTPErrorExn e), w') => handler e w'
           | other => other
           end.

Notation "'let*' x ':=' m 'in' k" := (bind m (fun x => k))
  (at level 10, x pattern, m at level 100, k at level 200).

(** *** The filesystem *)

(** The root is a directory; the other nodes are those of the map. *)
Definition node_at (m : gmap (list string) node) (k : list string) : option node :=
  match k with
  | [] => Some Dir
  | _ => m !! k
  end.

(** One component of a path, from the directory [cur]. *)
Definition enter (cur : list string) (c : string) : list string :=
  if bool_decide (c = "") || bool_decide (c = ".") then cur
  else if bool_decide (c = "..") then removelast cur
  else cur ++ [c].

(** Path resolution: every component is looked up in a directory. *)
Fixpoint walk (m : gmap (list string) node) (cur : list string) (cs : list string)
    : option (list string) :=
  match cs with
  | [] => Some cur
  | c :: cs' =>
      match node_at m cur with
      | Some Dir => walk m (enter cur c) cs'
      | _ => None
      end
  end.

Definition start (w : World) (p : string) : list string :=
  if startswith_sep p then [] else cwd w.

Definition resolve (w : World) (p : string) : option (list string) :=
  if bool_decide (p = "") then None else walk (fs w) (start w p) (split p).

Definition stat (w : World) (p : string) : option node :=
  match resolve w p with
  | Some k => node_at (fs w) k
  | None => None
  end.

Definition os_path_exists (w : World) (p : string) : bool :=
  bool_decide (is_Some (stat w p)).
Definition os_path_isdir (w : World) (p : string) : bool :=
  bool_decide (stat w p = Some Dir).
Definition os_path_isfile (w : World) (p : string) : bool :=
  bool_decide (stat w p = Some File).

(** [os.makedirs(name, exist_ok=True)]: the leaf directory and every missing
    directory on the way to it are made; a file on the way, or at the leaf,
    is an [OSError]. *)
Fixpoint makedirs_from (m : gmap (list string) node) (cur : list string)
    (cs : list string) : option (gmap (list string) node * list string) :=
  match cs with
  | [] => Some (m, cur)
  | c :: cs' =>
      match node_at m cur with
      | Some Dir => makedirs_from m (enter cur c) cs'
      | None => makedirs_from (<[cur := Dir]> m) (enter cur c) cs'
      | Some File => None
      end
  end.

Definition os_makedirs (name : string) : M unit :=
  fun w =>
    if bool_decide (name = "") then (Raise (OSError "FileNotFoundError"), w)
    else match makedirs_from (fs w) (start w name) (split name) with
         | None => (Raise (OSError "NotADirectoryError"), w)
         | Some (m, k) =>
             match node_at m k with
             | Some File => (Raise (OSError "FileExistsError"), w)
             | Some Dir => (Return tt, set_fs m w)
             | None => (Return tt, set_fs (<[k := Dir]> m) w)
             end
         end.

(** [urllib.request.urlretrieve(url, filename)]: the request is sent first,
    and only a 2xx answer opens [filename] for writing.  Of the ways the
    library function fails, the refusal of the server and the failure to
    reach it are modelled; a Content-Length it cannot read as an integer,
    an answer cut short and an address that is not valid are not (see
    [download_receipt_with] for the worker over any [urlretrieve]). *)
Definition urlretrieve (address filename : string) : M (string * HTTPMessage) :=
  fun w =>
    let w := log (EvGet address filename) w in
    match server w address with
    | Refuses e => (Raise (HTTPErrorExn e), w)
    | Unreachable reason => (Raise (URLError reason), w)
    | Answers header =>
        match resolve w filename with
        | None => (Raise (OSError "FileNotFoundError"), w)
        | Some k =>
            match node_at (fs w) k with
            | Some Dir => (Raise (OSError "IsADirectoryError"), w)
            | _ => (Return (filename, header), set_fs (<[k := File]> (fs w)) w)
            end
        end
    end.

(** ** Receipts: the record source *)

Definition newline : ascii := ascii_of_nat 10.

Definition is_digit (a : ascii) : bool :=
  (48 <=? nat_of_ascii a)%nat && (nat_of_ascii a <=? 57)%nat.

(** [[\d-]{n}] at the head of [s]: what is left of [s] after it. *)
Fixpoint match_digits_dashes (n : nat) (s : string) : option string :=
  match n, s with
  | O, _ => Some s
  | S k, String c rest =>
      if is_digit c || bool_decide (c = "-"%char) then match_digits_dashes k rest else None
  | S _, EmptyString => None
  end.

Fixpoint strip_prefix (p s : string) : option string :=
  match p, s with
  | EmptyString, _ => Some s
  | String a p', String b s' => if bool_decide (a = b) then strip_prefix p' s' else None
  | String _ _, EmptyString => None
  end.

(** [.xz$]: the dot of the pattern is not escaped and stands for any
    character but a newline; [$] also matches before a final newline. *)
Definition match_dot_xz_end (s : string) : bool :=
  match s with
  | String c (String x (String z rest)) =>
      negb (bool_decide (c = newline)) && bool_decide (x = "x"%char)
      && bool_decide (z = "z"%char)
      && (bool_decide (rest = "") || bool_decide (rest = String newline ""))
  | _ => false
  end.

(** [re.compile(REGEX).match(file_name)] for
    [REGEX = r'^[\d-]{11}(current-year|last-year|previous-years).xz$'],
    on file names in ASCII. *)
Definition REGEX_match (file_name : string) : bool :=
  match match_digits_dashes 11 file_name with
  | Some rest =>
      existsb (fun word => match strip_prefix word rest with
                           | Some tail => match_dot_xz_end tail
                           | None => false
                           end)
              ["current-year"; "last-year"; "previous-years"]
  | None => false
  end.

Definition BASE_DIR (w : World) : string :=
  dirname (dirname (abspath (cwd w) (script w))).
Definition DATA_DIR (w : World) : string := join (BASE_DIR w) ["data"].

(** [Receipts.datasets(self)] *)
Definition datasets (w : World) : list string :=
  (fun file_name => join (DATA_DIR w) [file_name]) <$> List.filter REGEX_match (listdir w).

(** The strings [pd.read_csv] reads as missing when it is given no
    [na_values] (the empty field first). *)
Definition na_values : list string :=
  [""; "#N/A"; "#N/A N/A"; "#NA"; "-1.#IND"; "-1.#QNAN"; "-NaN"; "-nan";
   "1.#IND"; "1.#QNAN"; "N/A"; "NA"; "NULL"; "NaN"; "nan"].

(** A field of a column read with [dtype] [np.str]. *)
Definition read_str_field (text : string) : pyval :=
  if bool_decide (text ∈ na_values) then PyNaN else PyStr text.

Definition read_line (l : Line) : Row :=
  {| row_applicant_id := line_applicant_id l;
     row_year := line_year l;
     row_document_id := read_str_field (line_document_id l) |}.

(** [pd.read_csv(dataset, parse_dates=[16], dtype=dtype)], then
    [data.itertuples()] *)
Definition read_csv (dataset : string) : M (list Row) :=
  fun w => (Return (read_line <$> csv w dataset), log (EvRead dataset) w).

(** The generator [Receipts(target).all()]: the rows of the current data
    frame that are still to be visited, and the datasets still to be read. *)
Record Generator := {
  frame : list Row;
  pending : list string
}.

Definition exhausted : Generator := {| frame := []; pending := [] |}.

(** [Receipts.all(self)], before its first [next]. *)
Definition all (w : World) : Generator := {| frame := []; pending := datasets w |}.

(** The generator expression of [all] over one data frame, up to its next
    receipt. *)
Fixpoint next_in_frame (tgt : string) (rows : list Row) : option (Receipt * list Row) :=
  match rows with
  | [] => None
  | row :: rest =>
      if negb (isnull (row_document_id row)) then Some (mkReceipt row tgt, rest)
      else next_in_frame tgt rest
  end.

Fixpoint next_in_datasets (tgt : string) (paths : list string)
    : M (option (Receipt * Generator)) :=
  match paths with
  | [] => ret None
  | dataset :: others =>
      let* data := read_csv dataset in
      match next_in_frame tgt data with
      | Some (r, rest) => ret (Some (r, {| frame := rest; pending := others |}))
      | None => next_in_datasets tgt others
      end
  end.

(** [next(receipts)]; [None] is [StopIteration]. *)
Definition next (tgt : string) (g : Generator) : M (option (Receipt * Generator)) :=
  match next_in_frame tgt (frame g) with
  | Some (r, rest) => ret (Some (r, {| frame := rest; pending := pending g |}))
  | None => next_in_datasets tgt (pending g)
  end.

(** [list(islice(receipts, n))]: at most [n] receipts are drawn, and the
    generator is not asked for one more. *)
Fixpoint islice (tgt : string) (g : Generator) (n : nat) : M (list Receipt * Generator) :=
  match n with
  | O => ret ([], g)
  | S k =>
      let* drawn := next tgt g in
      match drawn with
      | None => ret ([], exhausted)
      | Some (r, g') =>
          let* (rs, g'') := islice tgt g' k in
          ret (r :: rs, g'')
      end
  end.

(** [list(receipts)]: the generator is drawn until [StopIteration]. *)
Fixpoint rest_of_frame (tgt : string) (rows : list Row) : list Receipt :=
  match rows with
  | [] => []
  | row :: rest =>
      if negb (isnull (row_document_id row)) then mkReceipt row tgt :: rest_of_frame tgt rest
      else rest_of_frame tgt rest
  end.

Fixpoint rest_of_datasets (tgt : string) (paths : list string) : M (list Receipt) :=
  match paths with
  | [] => ret []
  | dataset :: others =>
      let* data := read_csv dataset in
      let* rs := rest_of_datasets tgt others in
      ret (rest_of_frame tgt data ++ rs)
  end.

Definition drain (tgt : string) (g : Generator) : M (list Receipt * Generator) :=
  let* rs := rest_of_datasets tgt (pending g) in
  ret (rest_of_frame tgt (frame g) ++ rs, exhausted).

(** ** The worker *)

(** The third component of a result: the headers of the answer, the
    [repr] of the [HTTPError] (kept as the error it is the [repr] of), or
    the address of the receipt. *)
Inductive args :=
  | Header (header : HTTPMessage)
  | Repr (e : HTTPError)
  | Url (address : string).

Definition result : Type := string * Receipt * args.

Definition exists_ (p : string) : M bool := fun w => (Return (os_path_exists w p), w).

(** [download_receipt(receipt)] *)
Definition download_receipt (receipt : Receipt) : M result :=
  let* _ := emit (EvCall receipt) in
  let* wd := getcwd_ in
  let path := path wd receipt in
  let* _ := os_makedirs (dirname path) in
  let* there := exists_ path in
  if negb there then
    try_except_HTTPError
      (let* (file_name, header) := urlretrieve (url receipt) path in
       ret ("ok", receipt, Header header))
      (fun e => ret ("error", receipt, Repr e))
  else ret ("skipped", receipt, Url (url receipt)).

(** ** The progress of a run *)

Record Progress := {
  count : Z;
  size : Z;
  errors : list string;
  skipped : list string
}.

Definition progress0 : Progress :=
  {| count := 0; size := 0; errors := []; skipped := [] |}.

Definition lower (a : ascii) : ascii :=
  let n := nat_of_ascii a in
  if (65 <=? n)%nat && (n <=? 90)%nat then ascii_of_nat (n + 32) else a.

Fixpoint lower_str (s : string) : string :=
  match s with
  | EmptyString => ""
  | String c rest => String (lower c) (lower_str rest)
  end.

(** [header[name]]: the first header of that name, whatever its case, and
    [None] when there is none. *)
Fixpoint header_get (name : string) (header : HTTPMessage) : option string :=
  match header with
  | [] => None
  | (k, v) :: rest =>
      if String.eqb (lower_str k) (lower_str name) then Some v else header_get name rest
  end.

Definition is_space (a : ascii) : bool :=
  let n := nat_of_ascii a in
  bool_decide (n = 32%nat) || ((9 <=? n)%nat && (n <=? 13)%nat).

Fixpoint lstrip (s : string) : string :=
  match s with
  | String c rest => if is_space c then lstrip rest else s
  | EmptyString => ""
  end.

Fixpoint rstrip (s : string) : string :=
  match s with
  | EmptyString => ""
  | String c rest =>
      let t := rstrip rest in
      if is_space c && bool_decide (t = "") then "" else String c t
  end.

Fixpoint digits (s : string) (acc : Z) : option Z :=
  match s with
  | EmptyString => Some acc
  | String c rest =>
      if is_digit c then digits rest (10 * acc + Z.of_nat (nat_of_ascii c - 48)) else None
  end.

Definition nonempty_digits (s : string) : option Z :=
  match s with
  | EmptyString => None
  | _ => digits s 0
  end.

(** The integer a string in base ten spells for [int]: blanks around, a
    sign, decimal digits in ASCII.  Underscores between digits and blanks
    outside ASCII, which [int] also reads, are not modelled. *)
Definition int_of_string (s : string) : option Z :=
  match lstrip (rstrip s) with
  | String "-" rest => Z.opp <$> nonempty_digits rest
  | String "+" rest => nonempty_digits rest
  | t => nonempty_digits t
  end.

(** [int(v)] for [v] a string or [None]. *)
Definition py_int (v : option string) : pyresult Z :=
  match v with
  | None => Raise (TypeError "int() argument must be a string, a bytes-like object or a number, not 'NoneType'")
  | Some s =>
      match int_of_string s with
      | Some n => Return n
      | None => Raise (ValueError "invalid literal for int() with base 10")
      end
  end.

(** [args[key]] *)
Definition getitem (a : args) (key : string) : pyresult (option string) :=
  match a with
  | Header header => Return (header_get key header)
  | _ => Raise (TypeError "string indices must be integers")
  end.

(** The body of the [for] loop of [run] up to its status line: [result]
    is taken apart and [progress] updated. *)
Definition on_result (progress : Progress) (res : result) : pyresult Progress :=
  let '(status, receipt, a) := res in
  if String.eqb status "ok" then
    match getitem a "Content-Length" with
    | Raise e => Raise e
    | Return v =>
        match py_int v with
        | Raise e => Raise e
        | Return n =>
            Return {| count := count progress + 1; size := size progress + n;
                      errors := errors progress; skipped := skipped progress |}
        end
    end
  else if String.eqb status "skipped" then
    Return {| count := count progress; size := size progress;
              errors := errors progress;
              skipped := skipped progress ++ [url receipt] |}
  else if String.eqb status "error" then
    Return {| count := count progress; size := size progress;
              errors := errors progress ++ [url receipt];
              skipped := skipped progress |}
  else Return progress.

(** [print(msg, end='\r')] of the status line. *)
Definition status_line (p : Progress) : event :=
  EvPrint (count p) (size p) (length (skipped p)) (length (errors p)).

(** ** run *)

(** Where the run is: at the top of the body of [while True], or inside
    the [for] loop with the receipts of the batch whose results
    [pool.imap] has still to give. *)
Inductive Position :=
  | AtWhile
  | InFor (batch : list Receipt).

Record State := {
  world : World;
  receipts : Generator;
  progress : Progress;
  position : Position
}.

Inductive Config :=
  | Running (s : State)
  | Returned (p : Progress) (w : World)
  | Raised (e : exn) (w : World).

(** [if limit:] for [limit] an integer or [None]. *)
Definition truth (limit : option Z) : bool :=
  match limit with
  | Some l => negb (Z.eqb l 0)
  | None => false
  end.

Definition limit_value (limit : option Z) : Z := default 0 limit.

(** One move of [run] after its checks: the batch is drawn, or one result
    is taken from [pool.imap], counted and shown, or the exit condition is
    tested.  The worker of a result is run when the result is taken, one
    worker at a time; the pool of the source starts the workers of a
    batch ahead of the loop, four at a time. *)
Definition step (tgt : string) (limit : option Z) (s : State) : Config :=
  match position s with
  | AtWhile =>
      if truth limit then
        let n := limit_value limit - count (progress s) in
        if Z.ltb n 0 then
          Raised (ValueError "Stop argument for islice() must be None or an integer: 0 <= x <= sys.maxsize.") (world s)
        else
          match islice tgt (receipts s) (Z.to_nat n) (world s) with
          | (Return (batch, g), w) =>
              Running {| world := w; receipts := g; progress := progress s;
                         position := InFor batch |}
          | (Raise e, w) => Raised e w
          end
      else
        match drain tgt (receipts s) (world s) with
        | (Return (batch, g), w) =>
            Running {| world := w; receipts := g; progress := progress s;
                       position := InFor batch |}
        | (Raise e, w) => Raised e w
        end
  | InFor (receipt :: batch) =>
      match download_receipt receipt (world s) with
      | (Return res, w) =>
          match on_result (progress s) res with
          | Return p =>
              Running {| world := log (status_line p) w; receipts := receipts s;
                         progress := p; position := InFor batch |}
          | Raise e => Raised e w
          end
      | (Raise e, w) => Raised e w
      end
  | InFor [] =>
      if negb (truth limit) || Z.leb (limit_value limit) (count (progress s)) then
        Returned (progress s) (world s)
      else
        Running {| world := world s; receipts := receipts s;
                   progress := progress s; position := AtWhile |}
  end.

(** The checks of [run] on its target, up to the pool. *)
Definition run_checks (tgt : string) (limit : option Z) (w : World) : Config :=
  if negb (os_path_exists w tgt) then
    Raised (RuntimeError (default "" (format "Directory {} does not exist" [("", PyStr tgt)]))) w
  else if negb (os_path_isdir w tgt) then
    Raised (RuntimeError (default "" (format "{} is a file, not a directory" [("", PyStr tgt)]))) w
  else
    Running {| world := w; receipts := all w; progress := progress0;
               position := AtWhile |}.

Fixpoint run_loop (fuel : nat) (tgt : string) (limit : option Z) (c : Config) : Config :=
  match fuel, c with
  | S k, Running s => run_loop k tgt limit (step tgt limit s)
  | _, _ => c
  end.

(** [run(target, limit)] after at most [fuel] moves: [Returned] is
    [return progress], [Raised] an exception that leaves [run], and
    [Running] a run that needs more moves. *)
Definition run (fuel : nat) (w : World) (tgt : string) (limit : option Z) : Config :=
  run_loop fuel tgt limit (run_checks tgt limit w).

(** ** Vocabulary of the statements *)

(** A string that can stand between two separators of a path. *)
Definition segment (s : string) : Prop :=
  s <> "" /\ startswith_sep s = false /\ endswith_sep s = false.

(** [path] with a separator after it, unless it has one (or is empty). *)
Definition with_sep (path : string) : string :=
  if bool_decide (path = "") || endswith_sep path then path else path +:+ "/".


(** The results the [for] loop has gone through, the receipts handed to
    workers and the requests sent, counted on the trace. *)
Definition is_print (e : event) : bool :=
  match e with EvPrint _ _ _ _ => true | _ => false end.
Definition is_call (e : event) : bool :=
  match e with EvCall _ => true | _ => false end.
Definition is_get (e : event) : bool :=
  match e with EvGet _ _ => true | _ => false end.

Definition consumed (w : World) : nat := length (List.filter is_print (trace w)).
Definition dispatched (w : World) : nat := length (List.filter is_call (trace w)).
Definition requests (w : World) : list event := List.filter is_get (trace w).

(** [count + len(skipped) + len(errors)] *)
Definition accounted (p : Progress) : Z :=
  count p + Z.of_nat (length (skipped p)) + Z.of_nat (length (errors p)).

(** The accounts of a run that started in the world [w0] are right: what
    [progress] counts is what the loop has gone through, and what has been
    handed to the workers. *)
Definition accounts (w0 : World) (c : Config) : Prop :=
  match c with
  | Running s =>
      accounted (progress s) + Z.of_nat (consumed w0) = Z.of_nat (consumed (world s))
      /\ accounted (progress s) + Z.of_nat (dispatched w0) = Z.of_nat (dispatched (world s))
  | Returned p w =>
      accounted p + Z.of_nat (consumed w0) = Z.of_nat (consumed w)
      /\ accounted p + Z.of_nat (dispatched w0) = Z.of_nat (dispatched w)
  | Raised _ _ => True
  end.

(** The count of a run is within the limit [l], with room for every
    result of the batch that is still to come. *)
Definition within (l : Z) (c : Config) : Prop :=
  match c with
  | Running s =>
      match position s with
      | AtWhile => count (progress s) <= l
      | InFor batch => count (progress s) + Z.of_nat (length batch) <= l
      end
  | Returned p _ => count p <= l
  | Raised _ _ => True
  end.

(** A move that prints no status line and calls no worker. *)
Definition quiet (w w' : World) : Prop :=
  consumed w' = consumed w /\ dispatched w' = dispatched w.

(** A string with something in it and no separator. *)
Definition plain (s : string) : Prop := s <> "" /\ has_sep s = false.

(** The lines of the dataset files, in the order [all] reads them, and the
    receipts [all] yields when it is drawn to its end. *)
Definition lines_read (w : World) : list Line :=
  concat (csv w <$> datasets w).

Definition yielded (w : World) (tgt : string) : list Receipt :=
  match drain tgt (all w) w with
  | (Return (rs, _), _) => rs
  | (Raise _, _) => []
  end.

(** ** Sample data *)

Definition sample_receipt : Receipt :=
  {| applicant_id := PyInt 1; year := PyInt 2016; document_id := PyStr "123";
     target := "receipts" |}.

Definition sample_lines : list Line :=
  [ {| line_applicant_id := PyInt 2; line_year := PyInt 2015; line_document_id := "77" |};
    {| line_applicant_id := PyInt 1; line_year := PyInt 2016; line_document_id := "" |};
    {| line_applicant_id := PyInt 1; line_year := PyInt 2016; line_document_id := "123" |} ].

(** A working directory [/home/user] with a directory [receipts] that
    holds the receipt [2/2015/77.pdf] already, one dataset of three lines,
    and a server that is given. *)
Definition sample_world (srv : string -> response) : World :=
  {| cwd := ["home"; "user"];
     script := "/srv/serenata/src/fetch_receipts.py";
     fs := {[ ["home"] := Dir;
              ["home"; "user"] := Dir;
              ["home"; "user"; "receipts"] := Dir;
              ["home"; "user"; "receipts"; "2"] := Dir;
              ["home"; "user"; "receipts"; "2"; "2015"] := Dir;
              ["home"; "user"; "receipts"; "2"; "2015"; "77.pdf"] := File ]};
     listdir := ["2016-08-08-current-year.xz"; "README.md"];
     csv := fun dataset =>
              if String.eqb dataset "/srv/serenata/data/2016-08-08-current-year.xz"
              then sample_lines else [];
     server := srv;
     trace := [] |}.

Definition serving : string -> response :=
  fun _ => Answers [("Content-Type", "application/pdf"); ("Content-Length", "1024")].
Definition refusing : string -> response :=
  fun _ => Refuses {| http_code := 404; http_msg := "Not Found" |}.
Definition offline : string -> response :=
  fun _ => Unreachable "[Errno 111] Connection refused".

(** ** Vocabulary of the further statements *)

(** What the generator [g] still has to yield, in a world whose dataset
    files are those of [w]. *)
Definition remaining (w : World) (tgt : string) (g : Generator) : list Receipt :=
  rest_of_frame tgt (frame g)
  ++ rest_of_frame tgt (read_line <$> concat (csv w <$> pending g)).

(** Two worlds that differ by their files and their trace at most. *)
Definition same_data (w w' : World) : Prop :=
  cwd w' = cwd w /\ script w' = script w /\ listdir w' = listdir w
  /\ csv w' = csv w /\ server w' = server w.

(** The receipts handed to [download_receipt], oldest first. *)
Definition call_of (e : event) : option Receipt :=
  match e with
  | EvCall r => Some r
  | _ => None
  end.

Definition called (w : World) : list Receipt := rev (omap call_of (trace w)).

Definition batch_of (pos : Position) : list Receipt :=
  match pos with
  | AtWhile => []
  | InFor batch => batch
  end.

(** The run that started in [w0] has handed to the workers a head of the
    stream of receipts, in the order of the stream and once each; what is
    left of the stream is the batch in hand and what the generator still
    holds.  Without a limit, nothing is left when the run returns. *)
Definition in_stream_order (limit : option Z) (w0 : World) (tgt : string)
    (c : Config) : Prop :=
  match c with
  | Running s =>
      same_data w0 (world s)
      /\ (truth limit = false -> position s <> AtWhile -> receipts s = exhausted)
      /\ exists handed,
           called (world s) = called w0 ++ handed
           /\ yielded w0 tgt
              = handed ++ batch_of (position s) ++ remaining w0 tgt (receipts s)
  | Returned p w =>
      exists handed rest,
        called w = called w0 ++ handed
        /\ yielded w0 tgt = handed ++ rest
        /\ (truth limit = false -> rest = [])
  | Raised _ _ => True
  end.

(** A character of the class [[\d-]] of [REGEX]. *)
Definition digit_or_dash (a : ascii) : bool := is_digit a || bool_decide (a = "-"%char).

Definition all_digits_dashes (s : string) : bool :=
  forallb digit_or_dash (list_ascii_of_string s).

Definition REGEX_words : list string := ["current-year"; "last-year"; "previous-years"].

(** The world after the datasets [ds] have been read, last one first. *)
Definition after_reads (w : World) (ds : list string) : World :=
  foldr (fun d w' => log (EvRead d) w') w ds.

(** A run with the limit [l] that has returned has reached its limit. *)
Definition limit_reached (l : Z) (c : Config) : Prop :=
  match c with
  | Returned p _ => l <= count p
  | _ => True
  end.

(** The progress of the sample run: one receipt downloaded, one skipped. *)
Definition sample_progress : Progress :=
  {| count := 1; size := 1024; errors := [];
     skipped := ["http://www.camara.gov.br/cota-parlamentar/documentos/publ/2/2015/77.pdf"] |}.

(** ** print_report *)

(** The digits of a number, last one first, with a comma after every
    third one that is not the first of the number. *)
Fixpoint group_thousands (rev_digits : list ascii) (k : nat) : list ascii :=
  match rev_digits with
  | [] => []
  | c :: rest =>
      match rest with
      | [] => [c]
      | _ =>
          if (k =? 2)%nat then c :: ","%char :: group_thousands rest 0
          else c :: group_thousands rest (S k)
      end
  end.

Definition with_commas (digits : string) : string :=
  string_of_list_ascii (rev (group_thousands (rev (list_ascii_of_string digits)) 0)).

(** [format(z, ',')] *)
Definition format_thousands (z : Z) : string :=
  match z with
  | Zneg x => "-" +:+ with_commas (pretty (Zpos x))
  | _ => with_commas (pretty z)
  end.

(** One replacement field, [{}] or [{:,}], on its value; [None] is the
    [ValueError] of a comma asked of a string, or of a specification that
    is not modelled. *)
Definition format_field (field : string) (v : pyval) : option string :=
  if String.eqb field "" then Some (py_format_value v)
  else if String.eqb field ":," then
    match v with
    | PyInt z => Some (format_thousands z)
    | _ => None
    end
  else None.

(** [recipe.format] with positional arguments, taken in turn; [None] is
    also the [IndexError] of a field without argument. *)
Fixpoint format_args_from (recipe : string) (field : option string) (args : list pyval)
    : option string :=
  match recipe, field with
  | EmptyString, None => Some ""
  | EmptyString, Some _ => None
  | String c rest, None =>
      if bool_decide (c = "{"%char) then format_args_from rest (Some "") args
      else String c <$> format_args_from rest None args
  | String c rest, Some f =>
      if bool_decide (c = "}"%char) then
        match args with
        | v :: args' =>
            match format_field f v with
            | Some s => (fun t => s +:+ t) <$> format_args_from rest None args'
            | None => None
            end
        | [] => None
        end
      else format_args_from rest (Some (f +:+ String c "")) args
  end.

Definition format_args (recipe : string) (args : list pyval) : string :=
  default "" (format_args_from recipe None args).

Section Report.

(** [humanize.naturalsize], which is not of this repository. *)
Variable naturalsize : Z -> string.

(** [for index, url in enumerate(urls): print('    {}. {}'.format(index + 1, url))] *)
Definition print_enumerated (urls : list string) : list string :=
  imap (fun index address =>
          format_args "    {}. {}" [PyInt (Z.of_nat index + 1); PyStr address]) urls.

(** [print_report(progress)], as the arguments of its calls of [print],
    in order. *)
Definition print_report (progress : Progress) : list string :=
  [format_args "==> Downloaded {:,} files ({})                                     "
     [PyInt (count progress); PyStr (naturalsize (size progress))]]
  ++ (if bool_decide (errors progress = []) then []
      else format_args (String newline "==> {:,} receipts could not be saved:")
             [PyInt (Z.of_nat (length (errors progress)))]
           :: print_enumerated (errors progress))
  ++ (if bool_decide (skipped progress = []) then []
      else format_args
             (String newline "==> {:,} receipts were skipped (probably they already exist)")
             [PyInt (Z.of_nat (length (skipped progress)))]
           :: print_enumerated (skipped progress)).

End Report.

(** The number of lines the report gives to a list of addresses. *)
Definition report_lines (urls : list string) : nat :=
  match urls with
  | [] => 0%nat
  | _ => S (length urls)
  end.

(** [download_receipt] over any [urlretrieve]: the worker as the source
    has it, whatever the library function does with the request. *)
Definition download_receipt_with
    (retrieve : string -> string -> M (string * HTTPMessage)) (receipt : Receipt)
    : M result :=
  let* _ := emit (EvCall receipt) in
  let* wd := getcwd_ in
  let path := path wd receipt in
  let* _ := os_makedirs (dirname path) in
  let* there := exists_ path in
  if negb there then
    try_except_HTTPError
      (let* (file_name, header) := retrieve (url receipt) path in
       ret ("ok", receipt, Header header))
      (fun e => ret ("error", receipt, Repr e))
  else ret ("skipped", receipt, Url (url receipt)).

(** An exception that [except HTTPError] lets through. *)
Definition not_HTTPError (e : exn) : Prop := forall h, e <> HTTPErrorExn h.

(** A world where the path of the sample receipt under the target [/]
    is a directory. *)
Definition odd_world : World :=
  {| cwd := [];
     script := "/srv/serenata/src/fetch_receipts.py";
     fs := {[ ["1"] := Dir; ["1"; "2016"] := Dir; ["1"; "2016"; "123.pdf"] := Dir ]};
     listdir := [];
     csv := fun _ => [];
     server := serving;
     trace := [] |}.

(** * Properties *)

(** ** Receipt.url and Receipt.path *)

Lemma url_format (self : Receipt) :
  format recipe [("base", PyStr base); ("applicant_id", applicant_id self);
                 ("year", year self); ("document_id", document_id self)]
  = Some (url self).
Proof. reflexivity. Qed.

Lemma py_format_value_str v : py_format_value v = py_str v.
Proof. by destruct v. Qed.

Lemma url_eq (self : Receipt) :
  url self = base +:+ py_str (applicant_id self) +:+ "/" +:+ py_str (year self)
             +:+ "/" +:+ py_str (document_id self) +:+ ".pdf".
Proof. rewrite <- !py_format_value_str. reflexivity. Qed.

(** C4: the address of a receipt is exactly the base address of the server
    followed by [applicant_id/year/document_id.pdf], the three fields in
    their string form; it is a function of these three fields alone (the
    target directory plays no part). *)
Theorem url_exact (a y d : pyval) (t : string) :
  url {| applicant_id := a; year := y; document_id := d; target := t |}
  = "http://www.camara.gov.br/cota-parlamentar/documentos/publ/"
    +:+ py_str a +:+ "/" +:+ py_str y +:+ "/" +:+ py_str d +:+ ".pdf"
  /\ forall t' : string,
       url {| applicant_id := a; year := y; document_id := d; target := t' |}
       = url {| applicant_id := a; year := y; document_id := d; target := t |}.
Proof.
  split.
  - apply (url_eq {| applicant_id := a; year := y; document_id := d; target := t |}).
  - intros t'. rewrite !url_eq. reflexivity.
Qed.

Section Strings.

Lemma append_nil_l (s : string) : "" +:+ s = s.
Proof. reflexivity. Qed.

Lemma append_cons (c : ascii) (s t : string) : String c s +:+ t = String c (s +:+ t).
Proof. reflexivity. Qed.

Lemma append_nil_r (s : string) : s +:+ "" = s.
Proof. induction s as [|c s IH]; [done | by rewrite append_cons, IH]. Qed.

Lemma append_assoc (s t u : string) : (s +:+ t) +:+ u = s +:+ (t +:+ u).
Proof. induction s as [|c s IH]; [done | by rewrite !append_cons, IH]. Qed.

Lemma append_eq_nil (s t : string) : s +:+ t = "" -> s = "" /\ t = "".
Proof. destruct s; [done | rewrite append_cons; discriminate]. Qed.

Lemma startswith_sep_append (s t : string) :
    s <> "" -> startswith_sep (s +:+ t) = startswith_sep s.
Proof. by destruct s. Qed.

Lemma endswith_sep_append (s t : string) :
    t <> "" -> endswith_sep (s +:+ t) = endswith_sep t.
Proof.
    intros Ht. induction s as [|c s IH]; [done |].
    rewrite append_cons. simpl. rewrite IH. destruct (s +:+ t) eqn:E; [|done].
    apply append_eq_nil in E as [_ ?]. done.
  Qed.

End Strings.

Lemma join2_segment (p b : string) :
  startswith_sep b = false -> join2 p b = with_sep p +:+ b.
Proof.
  intros Hb. unfold join2, with_sep. rewrite Hb.
  destruct (bool_decide (p = "") || endswith_sep p); [done |].
  by rewrite append_assoc.
Qed.

Lemma with_sep_segment (p b : string) :
  segment b -> with_sep (p +:+ b) = p +:+ b +:+ "/".
Proof.
  intros (Hne & _ & Hend). unfold with_sep.
  rewrite endswith_sep_append, Hend by done.
  rewrite bool_decide_eq_false_2; [by rewrite append_assoc |].
  intros E. by apply append_eq_nil in E as [_ ?].
Qed.

Lemma join_three (p a y f : string) :
  segment a -> segment y -> startswith_sep f = false ->
  join p [a; y; f] = with_sep p +:+ a +:+ "/" +:+ y +:+ "/" +:+ f.
Proof.
  intros Ha Hy Hf. unfold join. simpl.
  rewrite (join2_segment _ a) by apply Ha.
  rewrite (join2_segment _ y) by apply Hy.
  rewrite (join2_segment _ f) by exact Hf.
  rewrite (with_sep_segment _ a) by exact Ha.
  rewrite (with_sep_segment _ y) by exact Hy.
  by rewrite !append_assoc.
Qed.

(** C8, as the code has it: the path of a receipt is the absolute form of
    the target ([os.path.abspath], which resolves a relative target against
    the working directory and normalises it), then [applicant_id], [year]
    and [document_id.pdf] in their string form, one separator between two
    parts, whenever the string forms of [applicant_id] and [year] are
    segments and that of [document_id] does not begin with a separator. *)
Theorem path_absolute_joined (wd : list string) (r : Receipt) :
  segment (py_str (applicant_id r)) ->
  segment (py_str (year r)) ->
  startswith_sep (py_str (document_id r)) = false ->
  path wd r = with_sep (abspath wd (target r))
              +:+ py_str (applicant_id r) +:+ "/" +:+ py_str (year r) +:+ "/"
              +:+ py_str (document_id r) +:+ ".pdf".
Proof.
  intros Ha Hy Hd. unfold path.
  rewrite join_three; [done | exact Ha | exact Hy |].
  destruct (py_str (document_id r)); [done | exact Hd].
Qed.

(** The claim of C8 as it is written, [target/applicant_id/year/document_id.pdf]
    on the target as given, fails for a relative target: the path starts
    at the working directory. *)
Lemma path_relative_target :
  path ["home"; "user"] sample_receipt = "/home/user/receipts/1/2016/123.pdf"
  /\ path ["home"; "user"] sample_receipt
     <> target sample_receipt +:+ "/" +:+ py_str (applicant_id sample_receipt)
        +:+ "/" +:+ py_str (year sample_receipt)
        +:+ "/" +:+ py_str (document_id sample_receipt) +:+ ".pdf".
Proof. split; [by vm_compute | vm_compute; discriminate]. Qed.

Lemma path_absolute_joined_witness :
  path ["home"; "user"] sample_receipt
  = with_sep (abspath ["home"; "user"] "receipts") +:+ "1" +:+ "/" +:+ "2016" +:+ "/"
    +:+ "123" +:+ ".pdf".
Proof.
  apply (path_absolute_joined ["home"; "user"] sample_receipt);
    vm_compute; repeat split; discriminate.
Defined.

(** A part that begins with a separator takes the place of all that
    comes before it, the target with it. *)
Example path_component_from_root :
  path ["home"; "user"]
       {| applicant_id := PyStr "/srv"; year := PyInt 2016; document_id := PyStr "123";
          target := "/tmp/receipts" |}
  = "/srv/2016/123.pdf".
Proof. by vm_compute. Qed.

Section Integers.




Lemma plain_cons (c : ascii) (s : string) :
  is_sep c = false -> has_sep s = false -> plain (String c s).
Proof. intros Hc Hs. split; [done |]. simpl. by rewrite Hc, Hs. Qed.

Lemma is_sep_pretty_N_char (x : N) : is_sep (pretty_N_char x) = false.
Proof. unfold pretty_N_char. by repeat case_match. Qed.

Lemma pretty_N_go_plain (x : N) (s : string) : plain s -> plain (pretty_N_go x s).
Proof.
  revert s. induction (N.lt_wf_0 x) as [x _ IH]; intros s Hs.
  destruct (decide (x = 0%N)) as [-> | Hx]; [by rewrite pretty_N_go_0 |].
  rewrite pretty_N_go_step by lia.
  apply IH; [apply N.div_lt; lia |].
  apply plain_cons; [apply is_sep_pretty_N_char | apply Hs].
Qed.

Lemma pretty_positive_plain (x : positive) : plain (pretty x).
Proof.
  unfold pretty, pretty_positive, pretty, pretty_N.
  destruct (decide (N.pos x = 0%N)); [done |].
  rewrite pretty_N_go_step by lia.
  apply pretty_N_go_plain, plain_cons; [apply is_sep_pretty_N_char | done].
Qed.



End Integers.

(** ** Receipts.all *)

Section RecordSource.

Variable tgt : string.

Lemma rest_of_frame_app (a b : list Row) :
  rest_of_frame tgt (a ++ b) = rest_of_frame tgt a ++ rest_of_frame tgt b.
Proof.
  induction a as [|row a IH]; [done |]. simpl.
  destruct (isnull (row_document_id row)); simpl; by rewrite IH.
Qed.


Lemma rest_of_datasets_eq (paths : list string) (w : World) :
  exists w', rest_of_datasets tgt paths w
             = (Return (rest_of_frame tgt (read_line <$> concat (csv w <$> paths))), w')
             /\ csv w' = csv w /\ fs w' = fs w /\ cwd w' = cwd w.
Proof.
  revert w. induction paths as [|d ds IH]; intros w.
  - by exists w.
  - destruct (IH (log (EvRead d) w)) as (w' & E & ? & ? & ?).
    exists w'. split; [| done].
    simpl. unfold bind at 1. unfold read_csv at 1. unfold bind at 1. rewrite E.
    unfold ret. by rewrite fmap_app, rest_of_frame_app.
Qed.

Lemma yielded_eq (w : World) :
  yielded w tgt = rest_of_frame tgt (read_line <$> lines_read w).
Proof.
  unfold yielded, drain, lines_read, all. simpl. unfold bind.
  destruct (rest_of_datasets_eq (datasets w) w) as (w' & -> & _). done.
Qed.



End RecordSource.


(** ** Paths and the filesystem *)

Section Split.

Lemma split_nonempty (s : string) : split s <> [].
Proof.
  induction s as [|c s IH]; simpl; [done |].
  destruct (is_sep c); [done |]. by destruct (split s).
Qed.

Lemma split_no_sep (s : string) : has_sep s = false -> split s = [s].
Proof.
  induction s as [|c s IH]; simpl; [done |].
  intros [Hc Hs]%orb_false_elim. rewrite Hc, IH by done. done.
Qed.

Lemma split_has_sep (s : string) :
  has_sep s = true -> exists h t, split s = h :: t /\ t <> [].
Proof.
  induction s as [|c s IH]; simpl; [done |].
  destruct (is_sep c) eqn:Hc; simpl.
  - intros _. exists "", (split s). split; [done | apply split_nonempty].
  - intros Hs. destruct (IH Hs) as (h & t & -> & Ht). by exists (String c h), t.
Qed.

Lemma removelast_cons {A} (x : A) (l : list A) :
  l <> [] -> removelast (x :: l) = x :: removelast l.
Proof. by destruct l. Qed.

(** The components of [p[:p.rfind('/') + 1]] are those of [p] with the
    last one emptied. *)
Lemma split_upto_last_sep (p : string) :
  has_sep p = true -> split (upto_last_sep p) = removelast (split p) ++ [""].
Proof.
  induction p as [|c p IH]; [done |].
  intros Hp. simpl in Hp. simpl upto_last_sep.
  destruct (has_sep p) eqn:Hs.
  - specialize (IH eq_refl). destruct (split_has_sep p Hs) as (h & t & E & Ht).
    simpl. rewrite IH, E. destruct (is_sep c).
    + by rewrite (removelast_cons "" (h :: t)).
    + by rewrite (removelast_cons h t), (removelast_cons (String c h) t).
  - rewrite orb_false_r in Hp. rewrite Hp. simpl. rewrite Hp.
    by rewrite (split_no_sep p Hs).
Qed.

Lemma rstrip_sep_all_sep (h : string) : rstrip_sep h = "" <-> all_sep h = true.
Proof.
  induction h as [|c h IH]; simpl; [done |].
  destruct (is_sep c); simpl; [| done].
  rewrite <- IH. case_bool_decide as E; [by split | split; [discriminate | done]].
Qed.

(** [rstrip('/')] only takes empty components from the end. *)
Lemma split_rstrip_sep (h : string) :
  exists j, split h = split (rstrip_sep h) ++ replicate j "".
Proof.
  induction h as [|c h [j IH]]; [by exists 0%nat |].
  simpl. destruct (is_sep c) eqn:Hc; simpl.
  - case_bool_decide as Ht.
    + exists (S j). rewrite IH, Ht. done.
    + exists j. simpl. rewrite Hc, IH. done.
  - exists j. simpl. rewrite Hc, IH.
    destruct (split (rstrip_sep h)) eqn:E; [by apply split_nonempty in E | done].
Qed.

Lemma upto_last_sep_startswith (p : string) :
  startswith_sep p = true -> startswith_sep (upto_last_sep p) = true.
Proof.
  destruct p as [|c p]; [done |]. simpl. intros Hc.
  destruct (has_sep p); [done |]. by rewrite Hc.
Qed.

Lemma rstrip_sep_startswith (h : string) :
  rstrip_sep h <> "" -> startswith_sep (rstrip_sep h) = startswith_sep h.
Proof.
  destruct h as [|c h]; [done |]. simpl.
  destruct (is_sep c && bool_decide (rstrip_sep h = "")); done.
Qed.

Lemma dirname_startswith (p : string) :
  startswith_sep p = true -> startswith_sep (dirname p) = true.
Proof.
  intros Hp. unfold dirname.
  pose proof (upto_last_sep_startswith p Hp) as Hu.
  destruct (negb (bool_decide (upto_last_sep p = "")) && negb (all_sep (upto_last_sep p)))
    eqn:E; [| done].
  apply andb_prop in E as [_ Hall%negb_true_iff].
  rewrite rstrip_sep_startswith; [done |].
  rewrite rstrip_sep_all_sep. congruence.
Qed.

Lemma startswith_sep_has_sep (p : string) : startswith_sep p = true -> has_sep p = true.
Proof. destruct p as [|c p]; [done |]. simpl. by intros ->. Qed.

End Split.

Section Walk.

Variable m : gmap (list string) node.

Lemma walk_snoc (cur : list string) (cs : list string) (l : string) (k : list string) :
  walk m cur (cs ++ [l]) = Some k ->
  exists k', walk m cur cs = Some k' /\ node_at m k' = Some Dir /\ k = enter k' l.
Proof.
  revert cur. induction cs as [|c cs IH]; intros cur; simpl.
  - destruct (node_at m cur) as [[]|] eqn:E; try done.
    intros [= <-]. by exists cur.
  - destruct (node_at m cur) as [[]|]; try done. apply IH.
Qed.

Lemma walk_snoc_empty (cur : list string) (cs : list string) (k : list string) :
  walk m cur cs = Some k -> node_at m k = Some Dir -> walk m cur (cs ++ [""]) = Some k.
Proof.
  revert cur. induction cs as [|c cs IH]; intros cur; simpl.
  - intros [= ->] ->. done.
  - destruct (node_at m cur) as [[]|]; try done. apply IH.
Qed.

Lemma walk_replicate_empty (cur : list string) (cs : list string) (j : nat)
    (k : list string) :
  walk m cur (cs ++ replicate j "") = Some k -> walk m cur cs = Some k.
Proof.
  revert cs. induction j as [|j IH]; intros cs; simpl.
  - by rewrite app_nil_r.
  - rewrite (cons_middle "" cs), app_assoc. intros H%IH.
    apply walk_snoc in H as (k' & ? & _ & ->). done.
Qed.

(** Where a path leads, its directory leads to a directory. *)
Lemma walk_dirname (p : string) (cur k : list string) :
  has_sep p = true ->
  walk m cur (split p) = Some k ->
  exists k', walk m cur (split (dirname p)) = Some k' /\ node_at m k' = Some Dir.
Proof.
  intros Hp Hk.
  rewrite (app_removelast_last "" (split_nonempty p)) in Hk.
  apply walk_snoc in Hk as (k' & Hk' & Hdir & _).
  pose proof (walk_snoc_empty _ _ _ Hk' Hdir) as Hu.
  rewrite <- (split_upto_last_sep p Hp) in Hu.
  exists k'. split; [| done]. unfold dirname.
  destruct (negb (bool_decide (upto_last_sep p = "")) && negb (all_sep (upto_last_sep p)));
    [| done].
  destruct (split_rstrip_sep (upto_last_sep p)) as [j E].
  rewrite E in Hu. by apply walk_replicate_empty in Hu.
Qed.

(** On a path that resolves, [makedirs] finds every directory made. *)
Lemma walk_makedirs_from (cur : list string) (cs : list string) (k : list string) :
  walk m cur cs = Some k -> makedirs_from m cur cs = Some (m, k).
Proof.
  revert cur. induction cs as [|c cs IH]; intros cur; simpl.
  - by intros [= ->].
  - destruct (node_at m cur) as [[]|]; try done. apply IH.
Qed.

End Walk.

Section Absolute.

Lemma set_fs_same (w : World) : set_fs (fs w) w = w.
Proof. by destruct w. Qed.

Lemma startswith_sep_nonempty (p : string) : startswith_sep p = true -> p <> "".
Proof. by destruct p. Qed.

Lemma normpath_absolute (p : string) :
  startswith_sep p = true -> startswith_sep (normpath p) = true.
Proof.
  intros Hp. unfold normpath.
  rewrite bool_decide_eq_false_2 by by apply startswith_sep_nonempty.
  assert (exists n, initial_slashes p = S n) as [n ->].
  { destruct p as [|a p]; [done |]. simpl in Hp.
    destruct p as [|b [|c p]]; simpl; rewrite Hp.
    - eauto.
    - destruct (is_sep b); eauto.
    - destruct (is_sep b && negb (is_sep c)); eauto. }
  done.
Qed.

Lemma join2_absolute (a b : string) :
  startswith_sep a = true -> startswith_sep (join2 a b) = true.
Proof.
  intros Ha. unfold join2. destruct (startswith_sep b) eqn:Hb; [done |].
  destruct (bool_decide (a = "") || endswith_sep a);
    by rewrite startswith_sep_append by by apply startswith_sep_nonempty.
Qed.

Lemma abspath_absolute (wd : list string) (t : string) :
  startswith_sep (abspath wd t) = true.
Proof.
  unfold abspath. destruct (startswith_sep t) eqn:Ht.
  - by apply normpath_absolute.
  - apply normpath_absolute. simpl. by apply join2_absolute.
Qed.

Lemma path_absolute (wd : list string) (r : Receipt) :
  startswith_sep (path wd r) = true.
Proof.
  unfold path, join. simpl. do 3 apply join2_absolute. apply abspath_absolute.
Qed.

(** [os.makedirs(os.path.dirname(p), exist_ok=True)] does nothing when
    the absolute path [p] is there. *)
Lemma os_makedirs_dirname_exists (w : World) (p : string) :
  startswith_sep p = true ->
  os_path_exists w p = true ->
  os_makedirs (dirname p) w = (Return tt, w).
Proof.
  intros Hp Hex. apply bool_decide_eq_true_1 in Hex as [n Hn].
  unfold stat, resolve in Hn.
  rewrite bool_decide_eq_false_2 in Hn by by apply startswith_sep_nonempty.
  destruct (walk (fs w) (start w p) (split p)) as [k|] eqn:Hk; [| done].
  destruct (walk_dirname (fs w) p _ _ (startswith_sep_has_sep p Hp) Hk) as (k' & Hk' & Hdir).
  assert (start w (dirname p) = start w p) as Hstart.
  { unfold start. by rewrite Hp, dirname_startswith. }
  unfold os_makedirs.
  rewrite bool_decide_eq_false_2
    by by apply startswith_sep_nonempty, dirname_startswith.
  rewrite Hstart, (walk_makedirs_from _ _ _ _ Hk'), Hdir.
  by rewrite set_fs_same.
Qed.

End Absolute.

(** ** download_receipt and the body of the loop *)

Lemma os_path_isfile_exists (w : World) (p : string) :
  os_path_isfile w p = true -> os_path_exists w p = true.
Proof.
  intros H%bool_decide_eq_true_1. apply bool_decide_eq_true_2. rewrite H. by eexists.
Qed.

(** [makedirs] touches the files and directories only. *)
Lemma os_makedirs_frame (name : string) (w w' : World) (res : pyresult unit) :
  os_makedirs name w = (res, w') ->
  cwd w' = cwd w /\ server w' = server w /\ trace w' = trace w /\ csv w' = csv w.
Proof.
  unfold os_makedirs. case_bool_decide; [by intros [= _ <-] |].
  destruct (makedirs_from (fs w) (start w name) (split name)) as [[m k]|];
    [| by intros [= _ <-]].
  destruct (node_at m k) as [[]|]; by intros [= _ <-].
Qed.

(** C7: a receipt whose path is a regular file already is skipped: the
    result is [('skipped', receipt, receipt.url)], nothing is asked of the
    server (the world only records the call), and the loop of [run] appends
    the address of the receipt, not its path, to [progress['skipped']]. *)
Theorem download_receipt_skipped (w : World) (r : Receipt) (p : Progress) :
  os_path_isfile w (path (cwd w) r) = true ->
  download_receipt r w = (Return ("skipped", r, Url (url r)), log (EvCall r) w)
  /\ requests (log (EvCall r) w) = requests w
  /\ on_result p ("skipped", r, Url (url r))
     = Return {| count := count p; size := size p; errors := errors p;
                 skipped := skipped p ++ [url r] |}.
Proof.
  intros Hfile%os_path_isfile_exists. split; [| by split].
  unfold download_receipt, bind, emit, getcwd_, exists_, ret. simpl.
  rewrite (os_makedirs_dirname_exists (log (EvCall r) w)); [| apply path_absolute | exact Hfile].
  change (os_path_exists (log (EvCall r) w) (path (cwd w) r))
    with (os_path_exists w (path (cwd w) r)).
  by rewrite Hfile.
Qed.

Lemma download_receipt_skipped_witness :
  let r := mkReceipt (read_line {| line_applicant_id := PyInt 2; line_year := PyInt 2015;
                                   line_document_id := "77" |}) "receipts" in
  let w := sample_world serving in
  download_receipt r w = (Return ("skipped", r, Url (url r)), log (EvCall r) w)
  /\ requests (log (EvCall r) w) = requests w
  /\ on_result progress0 ("skipped", r, Url (url r))
     = Return {| count := 0; size := 0; errors := [];
                 skipped := [] ++ [url r] |}.
Proof.
  intros r w. apply (download_receipt_skipped w r progress0). by vm_compute.
Defined.

(** C1, as the code has it: when the request is sent (the directory of the
    path could be made and the path is not there) and the server answers
    with an error status, the result is [('error', receipt, repr(e))];
    the loop of [run] then appends the address of the receipt to
    [progress['errors']] and goes on with the rest of the batch. *)
Theorem download_receipt_http_error (w w1 : World) (r : Receipt) (e : HTTPError)
    (tgt : string) (limit : option Z) (g : Generator) (p : Progress)
    (batch : list Receipt) :
  os_makedirs (dirname (path (cwd w) r)) (log (EvCall r) w) = (Return tt, w1) ->
  os_path_exists w1 (path (cwd w) r) = false ->
  server w (url r) = Refuses e ->
  let w2 := log (EvGet (url r) (path (cwd w) r)) w1 in
  let p' := {| count := count p; size := size p; errors := errors p ++ [url r];
               skipped := skipped p |} in
  download_receipt r w = (Return ("error", r, Repr e), w2)
  /\ step tgt limit {| world := w; receipts := g; progress := p;
                       position := InFor (r :: batch) |}
     = Running {| world := log (status_line p') w2; receipts := g; progress := p';
                  position := InFor batch |}.
Proof.
  intros Hmk Hex Hsrv w2 p'.
  assert (download_receipt r w = (Return ("error", r, Repr e), w2)) as Hdl.
  { unfold download_receipt, bind, emit, getcwd_, exists_, ret. simpl.
    rewrite Hmk, Hex. simpl.
    unfold try_except_HTTPError, urlretrieve. simpl.
    destruct (os_makedirs_frame _ _ _ _ Hmk) as (_ & -> & _). simpl.
    by rewrite Hsrv. }
  split; [exact Hdl |].
  unfold step. simpl. by rewrite Hdl.
Qed.

Lemma download_receipt_http_error_witness :
  exists w2 p',
    download_receipt sample_receipt (sample_world refusing)
    = (Return ("error", sample_receipt,
               Repr {| http_code := 404; http_msg := "Not Found" |}), w2)
    /\ step "receipts" None
         {| world := sample_world refusing; receipts := exhausted;
            progress := progress0; position := InFor [sample_receipt] |}
       = Running {| world := log (status_line p') w2; receipts := exhausted;
                    progress := p'; position := InFor [] |}
    /\ errors p' = [url sample_receipt].
Proof.
  eexists _, _.
  refine ((fun H => conj (proj1 H) (conj (proj2 H) eq_refl))
            (download_receipt_http_error (sample_world refusing) _ sample_receipt
               {| http_code := 404; http_msg := "Not Found" |}
               "receipts" None exhausted progress0 [] _ _ _)).
  - by vm_compute.
  - by vm_compute.
  - reflexivity.
Defined.

(** The claim of C1 as it is written fails on a transport error:
    [urlretrieve] raises [URLError], which [except HTTPError] does not
    catch; the worker gives no result and the exception leaves [run]. *)
Lemma download_receipt_transport_error :
  server (sample_world offline) (url sample_receipt)
    = Unreachable "[Errno 111] Connection refused"
  /\ (exists w', download_receipt sample_receipt (sample_world offline)
                 = (Raise (URLError "[Errno 111] Connection refused"), w'))
  /\ (exists w', run 3 (sample_world offline) "receipts" None
                 = Raised (URLError "[Errno 111] Connection refused") w').
Proof.
  split; [reflexivity |]. split; eexists; by vm_compute.
Qed.

(** C9: an ['ok'] result adds one to [progress['count']] and the integer
    of the Content-Length header to [progress['size']], and leaves the two
    lists as they are; when the header is missing or is not an integer,
    [int] raises and no progress is made (the fatal choice). *)
Theorem on_result_ok (p : Progress) (r : Receipt) (header : HTTPMessage) :
  match header_get "Content-Length" header ≫= int_of_string with
  | Some n =>
      on_result p ("ok", r, Header header)
      = Return {| count := count p + 1; size := size p + n;
                  errors := errors p; skipped := skipped p |}
  | None => exists e, on_result p ("ok", r, Header header) = Raise e
  end.
Proof.
  unfold on_result. simpl.
  destruct (header_get "Content-Length" header) as [s|]; simpl; [| by eexists].
  destruct (int_of_string s); simpl; [done | by eexists].
Qed.

(** ** The generator on the trace *)

Section Generator.

Variable tgt : string.

Lemma quiet_refl (w : World) : quiet w w.
Proof. by split. Qed.

Lemma quiet_trans (w1 w2 w3 : World) : quiet w1 w2 -> quiet w2 w3 -> quiet w1 w3.
Proof. intros [] []. split; congruence. Qed.

Lemma quiet_read (dataset : string) (w : World) : quiet w (log (EvRead dataset) w).
Proof. by split. Qed.

Lemma next_in_datasets_total (paths : list string) (w : World) :
  exists o w', next_in_datasets tgt paths w = (Return o, w') /\ quiet w w'.
Proof.
  revert w. induction paths as [|d ds IH]; intros w; simpl.
  - exists None, w. split; [done | apply quiet_refl].
  - unfold bind, read_csv.
    destruct (next_in_frame tgt (read_line <$> csv w d)) as [[r rest]|].
    + eexists _, _. split; [done | apply quiet_read].
    + destruct (IH (log (EvRead d) w)) as (o & w' & -> & Hq).
      exists o, w'. split; [done |]. eapply quiet_trans; [apply quiet_read | done].
Qed.

Lemma next_total (g : Generator) (w : World) :
  exists o w', next tgt g w = (Return o, w') /\ quiet w w'.
Proof.
  unfold next. destruct (next_in_frame tgt (frame g)) as [[r rest]|].
  - eexists _, _. split; [done | apply quiet_refl].
  - apply next_in_datasets_total.
Qed.

(** [islice] never raises, and gives at most [n] receipts. *)
Lemma islice_total (n : nat) (g : Generator) (w : World) :
  exists batch g' w',
    islice tgt g n w = (Return (batch, g'), w')
    /\ (length batch <= n)%nat /\ quiet w w'.
Proof.
  revert g w. induction n as [|n IH]; intros g w; simpl.
  - exists [], g, w. split; [done |]. split; [done | apply quiet_refl].
  - unfold bind at 1. destruct (next_total g w) as ([[r g1]|] & w1 & -> & Hq1).
    + destruct (IH g1 w1) as (batch & g2 & w2 & E & Hlen & Hq2).
      unfold bind. rewrite E. exists (r :: batch), g2, w2.
      split; [done |]. split; [simpl; lia | by eapply quiet_trans].
    + exists [], exhausted, w1. split; [done |]. split; [simpl; lia | done].
Qed.

Lemma islice_exhausted (n : nat) (w : World) :
  islice tgt exhausted (S n) w = (Return ([], exhausted), w).
Proof. reflexivity. Qed.

Lemma rest_of_datasets_quiet (paths : list string) (w : World) :
  exists rs w', rest_of_datasets tgt paths w = (Return rs, w') /\ quiet w w'.
Proof.
  revert w. induction paths as [|d ds IH]; intros w; simpl.
  - exists [], w. split; [done | apply quiet_refl].
  - unfold bind at 1, read_csv at 1.
    destruct (IH (log (EvRead d) w)) as (rs & w' & E & Hq).
    unfold bind. rewrite E. eexists _, w'. split; [done |].
    eapply quiet_trans; [apply quiet_read | done].
Qed.

Lemma drain_total (g : Generator) (w : World) :
  exists batch w', drain tgt g w = (Return (batch, exhausted), w') /\ quiet w w'.
Proof.
  unfold drain, bind.
  destruct (rest_of_datasets_quiet (pending g) w) as (rs & w' & -> & Hq).
  by eexists _, w'.
Qed.

End Generator.

(** ** The worker and the loop on the trace *)

(** The results [download_receipt] gives carry one of the three statuses,
    and the headers when the status is ['ok']; the call is recorded, no
    status line is. *)
Lemma download_receipt_result (r : Receipt) (w w' : World) (res : result) :
  download_receipt r w = (Return res, w') ->
  ((exists header, res = ("ok", r, Header header))
   \/ res = ("skipped", r, Url (url r))
   \/ (exists e, res = ("error", r, Repr e)))
  /\ consumed w' = consumed w /\ dispatched w' = S (dispatched w).
Proof.
  unfold download_receipt, bind, emit, getcwd_, exists_, ret. simpl.
  destruct (os_makedirs (dirname (path (cwd w) r)) (log (EvCall r) w))
    as [[[]|e] w1] eqn:Hmk; [| done].
  destruct (os_makedirs_frame _ _ _ _ Hmk) as (_ & _ & Htr & _).
  assert (consumed w1 = consumed w /\ dispatched w1 = S (dispatched w)) as [Hc Hd].
  { unfold consumed, dispatched. by rewrite Htr. }
  destruct (os_path_exists w1 (path (cwd w) r)); simpl.
  - intros [= <- <-]. split; [eauto 6 | by split].
  - unfold try_except_HTTPError, urlretrieve. simpl.
    destruct (server w1 (url r)) as [header|e|reason]; simpl.
    + destruct (resolve (log (EvGet (url r) (path (cwd w) r)) w1) (path (cwd w) r))
        as [k|]; simpl; [| done].
      destruct (node_at (fs w1) k) as [[]|]; simpl; intros [= <- <-];
        (split; [eauto 6 | split; [exact Hc | exact Hd]]).
    + intros [= <- <-]. split; [eauto 6 | split; [exact Hc | exact Hd]].
    + done.
Qed.

Lemma on_result_accounted (p p' : Progress) (r : Receipt) (res : result) :
  ((exists header, res = ("ok", r, Header header))
   \/ res = ("skipped", r, Url (url r))
   \/ (exists e, res = ("error", r, Repr e))) ->
  on_result p res = Return p' ->
  accounted p' = accounted p + 1.
Proof.
  unfold accounted. intros [[h ->]|[->|[e ->]]]; simpl.
  - destruct (py_int _); [| done]. intros [= <-]. simpl. lia.
  - intros [= <-]. simpl. rewrite length_app. simpl. lia.
  - intros [= <-]. simpl. rewrite length_app. simpl. lia.
Qed.

Lemma on_result_count (p p' : Progress) (res : result) :
  on_result p res = Return p' -> count p <= count p' <= count p + 1.
Proof.
  destruct res as [[status r] a]. unfold on_result.
  destruct (String.eqb status "ok").
  - destruct (getitem a _) as [v|]; [| done].
    destruct (py_int v); [| done]. intros [= <-]. simpl. lia.
  - destruct (String.eqb status "skipped"); [intros [= <-]; simpl; lia |].
    destruct (String.eqb status "error"); intros [= <-]; simpl; lia.
Qed.

Lemma run_loop_invariant (I : Config -> Prop) (tgt : string) (limit : option Z) :
  (forall s, I (Running s) -> I (step tgt limit s)) ->
  forall fuel c, I c -> I (run_loop fuel tgt limit c).
Proof.
  intros Hstep fuel. induction fuel as [|fuel IH]; intros c Hc; simpl.
  - by destruct c.
  - destruct c; auto.
Qed.

Lemma run_loop_add (n k : nat) (tgt : string) (limit : option Z) (c : Config) :
  run_loop (n + k) tgt limit c = run_loop k tgt limit (run_loop n tgt limit c).
Proof.
  revert c. induction n as [|n IH]; intros c; simpl.
  - by destruct k, c.
  - destruct c; [apply IH | by destruct k | by destruct k].
Qed.

(** ** run *)

(** C6: when the target is not a directory (it is missing, or it is
    something else), [run] raises [RuntimeError] at once: no progress is
    returned, and the world is the one it started in, so that no dataset
    has been read and no receipt handed to a worker. *)
Theorem run_bad_target (fuel : nat) (w : World) (tgt : string) (limit : option Z) :
  os_path_isdir w tgt = false ->
  run fuel w tgt limit
  = Raised (RuntimeError (if os_path_exists w tgt
                          then tgt +:+ " is a file, not a directory"
                          else "Directory " +:+ tgt +:+ " does not exist")) w.
Proof.
  intros Hdir. unfold run, run_checks. rewrite Hdir.
  destruct (os_path_exists w tgt); simpl; by destruct fuel.
Qed.

Lemma run_bad_target_witness :
  run 7 (sample_world serving) "elsewhere" (Some 3)
  = Raised (RuntimeError "Directory elsewhere does not exist") (sample_world serving)
  /\ run 7 (sample_world serving) "receipts/2/2015/77.pdf" None
     = Raised (RuntimeError "receipts/2/2015/77.pdf is a file, not a directory")
              (sample_world serving).
Proof.
  split.
  - apply (run_bad_target 7 (sample_world serving) "elsewhere" (Some 3)). by vm_compute.
  - apply (run_bad_target 7 (sample_world serving) "receipts/2/2015/77.pdf" None).
    by vm_compute.
Defined.

Lemma accounts_step (w0 : World) (tgt : string) (limit : option Z) (s : State) :
  accounts w0 (Running s) -> accounts w0 (step tgt limit s).
Proof.
  destruct s as [w g p pos]. unfold step. simpl. intros [Hc Hd].
  destruct pos as [|[|r batch]].
  - destruct (truth limit).
    + destruct (Z.ltb _ _); [done |].
      destruct (islice_total tgt (Z.to_nat (limit_value limit - count p)) g w)
        as (batch & g' & w' & -> & _ & Hq1 & Hq2).
      simpl. by rewrite Hq1, Hq2.
    + destruct (drain_total tgt g w) as (batch & w' & -> & Hq1 & Hq2).
      simpl. by rewrite Hq1, Hq2.
  - by destruct (negb (truth limit) || _).
  - destruct (download_receipt r w) as [[res|e] w'] eqn:Hdl; [| done].
    destruct (download_receipt_result _ _ _ _ Hdl) as (Hres & Hc' & Hd').
    destruct (on_result p res) as [p'|e] eqn:Hon; [| done].
    pose proof (on_result_accounted _ _ _ _ Hres Hon) as Hacc.
    simpl. unfold consumed, dispatched in *. simpl. split; lia.
Qed.

(** C5: at every point of a run, and when it returns,
    [count + len(skipped) + len(errors)] is the number of results the loop
    has gone through since the start (one status line each), which is also
    the number of receipts handed to [download_receipt]. *)
Theorem accounting_invariant (fuel : nat) (w : World) (tgt : string) (limit : option Z) :
  accounts w (run fuel w tgt limit).
Proof.
  unfold run. apply run_loop_invariant; [apply accounts_step |].
  unfold run_checks.
  destruct (negb (os_path_exists w tgt)); [done |].
  destruct (negb (os_path_isdir w tgt)); [done |].
  simpl. unfold accounted. simpl. split; lia.
Qed.

Lemma within_step (l : Z) (tgt : string) (s : State) :
  0 < l -> within l (Running s) -> within l (step tgt (Some l) s).
Proof.
  intros Hl. destruct s as [w g p pos]. unfold step. simpl.
  replace (Z.eqb l 0) with false by (symmetry; apply Z.eqb_neq; lia). simpl.
  destruct pos as [|[|r batch]]; intros H.
  - destruct (Z.ltb_spec (l - count p) 0) as [?|_]; [done |].
    destruct (islice_total tgt (Z.to_nat (l - count p)) g w)
      as (batch & g' & w' & -> & Hlen & _).
    simpl. lia.
  - simpl in H. destruct (Z.leb l (count p)); simpl; lia.
  - destruct (download_receipt r w) as [[res|e] w']; [| done].
    destruct (on_result p res) as [p'|e] eqn:Hon; [| done].
    apply on_result_count in Hon. simpl in *. lia.
Qed.

(** C10: with a limit above zero, the count never goes over the limit, at
    any point of the run or when it returns: a batch never holds more
    receipts than the limit leaves room for. *)
Theorem count_within_limit (fuel : nat) (w : World) (tgt : string) (l : Z) :
  0 < l -> within l (run fuel w tgt (Some l)).
Proof.
  intros Hl. unfold run.
  apply (run_loop_invariant (within l)); [intros s; by apply within_step |].
  unfold run_checks.
  destruct (negb (os_path_exists w tgt)); [done |].
  destruct (negb (os_path_isdir w tgt)); [done |].
  simpl. lia.
Qed.

Lemma count_within_limit_witness :
  within 1 (run 6 (sample_world serving) "receipts" (Some 1)).
Proof. apply (count_within_limit 6 (sample_world serving) "receipts" 1). lia. Defined.

(** With a limit, more receipts than the limit can be tried: here the
    limit is one, and the run returns after two results, one of them
    skipped. *)
Example more_results_than_limit :
  exists p w', run 6 (sample_world serving) "receipts" (Some 1) = Returned p w'
               /\ count p = 1 /\ length (skipped p) = 1%nat /\ consumed w' = 2%nat.
Proof. eexists _, _. by vm_compute. Qed.

(** *** Termination *)

Lemma run_loop_settled (fuel : nat) (tgt : string) (limit : option Z) (c : Config) :
  (forall s, c <> Running s) -> run_loop fuel tgt limit c = c.
Proof. intros H. destruct fuel, c; try done. by destruct (H s). Qed.

Lemma run_loop_running_before (n k : nat) (tgt : string) (limit : option Z)
    (c : Config) (s : State) :
  run_loop (n + k) tgt limit c = Running s -> exists s', run_loop n tgt limit c = Running s'.
Proof.
  rewrite run_loop_add. destruct (run_loop n tgt limit c) as [s'| |] eqn:E; [by eauto | |];
    by rewrite run_loop_settled.
Qed.

(** Without a limit the [for] loop goes through its batch and [run]
    returns, unless an exception leaves it before. *)
Lemma for_loop_ends (tgt : string) (limit : option Z) (batch : list Receipt) :
  truth limit = false ->
  forall w g p,
    exists fuel, forall s,
      run_loop fuel tgt limit
        (Running {| world := w; receipts := g; progress := p; position := InFor batch |})
      <> Running s.
Proof.
  intros Hlimit. induction batch as [|r batch IH]; intros w g p.
  - exists 1%nat. intros s. simpl. unfold step. simpl. by rewrite Hlimit.
  - destruct (download_receipt r w) as [[res|e] w'] eqn:Hdl.
    + destruct (on_result p res) as [p'|e] eqn:Hon.
      * destruct (IH (log (status_line p') w') g p') as [fuel Hfuel].
        exists (S fuel). intros s. simpl. unfold step at 1. simpl. rewrite Hdl, Hon.
        apply Hfuel.
      * exists 1%nat. intros s. simpl. unfold step. simpl. by rewrite Hdl, Hon.
    + exists 1%nat. intros s. simpl. unfold step. simpl. by rewrite Hdl.
Qed.

Lemma run_without_limit_ends (w : World) (tgt : string) (limit : option Z) :
  truth limit = false ->
  exists fuel, forall s, run fuel w tgt limit <> Running s.
Proof.
  intros Hlimit. unfold run, run_checks.
  destruct (negb (os_path_exists w tgt)); [by exists 0%nat |].
  destruct (negb (os_path_isdir w tgt)); [by exists 0%nat |].
  destruct (drain_total tgt (all w) w) as (batch & w' & Hdrain & _).
  destruct (for_loop_ends tgt limit batch Hlimit w' exhausted progress0) as [fuel Hfuel].
  exists (S fuel). intros s. simpl. unfold step at 1. simpl. rewrite Hlimit, Hdrain.
  apply Hfuel.
Qed.

(** With a limit that the count has not reached and a generator that has
    nothing left, [run] goes round the [while] loop for ever: the batch is
    empty, the exit condition fails, and nothing has changed. *)
Lemma run_loop_spins (tgt : string) (limit : option Z) (w : World) (p : Progress)
    (pos : Position) :
  truth limit = true ->
  count p < limit_value limit ->
  pos = AtWhile \/ pos = InFor [] ->
  forall fuel, exists pos',
    run_loop fuel tgt limit
      (Running {| world := w; receipts := exhausted; progress := p; position := pos |})
    = Running {| world := w; receipts := exhausted; progress := p; position := pos' |}.
Proof.
  intros Hlimit Hcount Hpos fuel. revert pos Hpos.
  induction fuel as [|fuel IH]; intros pos Hpos; [by exists pos |].
  simpl. unfold step. simpl. rewrite Hlimit. destruct Hpos as [-> | ->].
  - destruct (Z.ltb_spec (limit_value limit - count p) 0) as [?|_]; [lia |].
    destruct (Z.to_nat (limit_value limit - count p)) as [|n] eqn:E; [lia |].
    rewrite islice_exhausted. apply IH. by right.
  - simpl. destruct (Z.leb_spec (limit_value limit) (count p)) as [?|_]; [lia |].
    apply IH. by left.
Qed.

(** C2, where the code fails the claim: with a limit of five, one dataset
    of three lines, one receipt on disk already and a server that answers
    every request, the generator is exhausted after one download and one
    skip; [run] never returns and never raises, whatever the number of
    moves it is given. *)
Theorem run_limit_exhausted_never_returns (fuel : nat) :
  exists s, run fuel (sample_world serving) "receipts" (Some 5) = Running s
            /\ ((4 <= fuel)%nat -> count (progress s) = 1 /\ receipts s = exhausted).
Proof.
  assert (exists w, run 4 (sample_world serving) "receipts" (Some 5)
                  = Running {| world := w; receipts := exhausted;
                               progress := {| count := 1; size := 1024; errors := [];
                                              skipped := [url (mkReceipt (read_line
                                                {| line_applicant_id := PyInt 2;
                                                   line_year := PyInt 2015;
                                                   line_document_id := "77" |}) "receipts")] |};
                               position := AtWhile |}) as [w Hfour].
  { eexists. by vm_compute. }
  destruct (Nat.le_gt_cases 4 fuel) as [Hle|Hlt].
  - replace fuel with (4 + (fuel - 4))%nat by lia.
    unfold run in *. rewrite run_loop_add, Hfour.
    edestruct (run_loop_spins "receipts" (Some 5) w) as [pos' ->];
      [reflexivity | | by left |]; [simpl; lia |].
    eexists. split; [reflexivity | done].
  - unfold run in *. replace 4%nat with (fuel + (4 - fuel))%nat in Hfour by lia.
    apply run_loop_running_before in Hfour as [s' ->].
    exists s'. split; [done | lia].
Qed.

(** * Further properties *)

(** ** The generator as a stream *)

Section Stream.

Variable tgt : string.

Lemma same_data_refl (w : World) : same_data w w.
Proof. by repeat split. Qed.

Lemma same_data_trans (w1 w2 w3 : World) :
  same_data w1 w2 -> same_data w2 w3 -> same_data w1 w3.
Proof. intros (?&?&?&?&?) (?&?&?&?&?). repeat split; congruence. Qed.

Lemma same_data_log (e : event) (w : World) : same_data w (log e w).
Proof. by repeat split. Qed.

Lemma next_in_frame_spec (rows : list Row) :
  match next_in_frame tgt rows with
  | Some (r, rest) => rest_of_frame tgt rows = r :: rest_of_frame tgt rest
  | None => rest_of_frame tgt rows = []
  end.
Proof.
  induction rows as [|row rows IH]; simpl; [done |].
  by destruct (isnull (row_document_id row)).
Qed.

Lemma next_in_datasets_spec (paths : list string) (w0 w : World) :
  csv w = csv w0 ->
  exists o w',
    next_in_datasets tgt paths w = (Return o, w') /\ same_data w w'
    /\ match o with
       | Some (r, g) =>
           rest_of_frame tgt (read_line <$> concat (csv w0 <$> paths))
           = r :: remaining w0 tgt g
       | None => rest_of_frame tgt (read_line <$> concat (csv w0 <$> paths)) = []
       end.
Proof.
  revert w. induction paths as [|d ds IH]; intros w Hcsv; simpl.
  - exists None, w. split; [done |]. split; [apply same_data_refl | done].
  - unfold bind, read_csv. rewrite fmap_app, rest_of_frame_app, Hcsv.
    pose proof (next_in_frame_spec (read_line <$> csv w0 d)) as Hframe.
    destruct (next_in_frame tgt (read_line <$> csv w0 d)) as [[r rest]|].
    + eexists _, _. split; [done |]. split; [apply same_data_log |].
      unfold remaining. simpl. by rewrite Hframe.
    + destruct (IH (log (EvRead d) w) Hcsv) as (o & w' & -> & Hsame & Ho).
      exists o, w'. split; [done |].
      split; [eapply same_data_trans; [apply same_data_log | done] |].
      rewrite Hframe. exact Ho.
Qed.

Lemma next_spec (g : Generator) (w0 w : World) :
  csv w = csv w0 ->
  exists o w',
    next tgt g w = (Return o, w') /\ same_data w w'
    /\ match o with
       | Some (r, g') => remaining w0 tgt g = r :: remaining w0 tgt g'
       | None => remaining w0 tgt g = []
       end.
Proof.
  intros Hcsv. unfold next.
  pose proof (next_in_frame_spec (frame g)) as Hframe.
  destruct (next_in_frame tgt (frame g)) as [[r rest]|].
  - eexists _, _. split; [done |]. split; [apply same_data_refl |].
    unfold remaining. simpl. by rewrite Hframe.
  - destruct (next_in_datasets_spec (pending g) w0 w Hcsv) as (o & w' & -> & Hsame & Ho).
    exists o, w'. split; [done |]. split; [done |].
    unfold remaining at 1. unfold remaining at 2. rewrite Hframe. simpl.
    destruct o as [[r g']|]; exact Ho.
Qed.

Lemma remaining_exhausted (w : World) : remaining w tgt exhausted = [].
Proof. reflexivity. Qed.

(** [islice] takes the next [n] receipts of the stream and leaves the
    generator with the rest. *)
Lemma islice_spec (n : nat) (g : Generator) (w0 w : World) :
  csv w = csv w0 ->
  exists g' w',
    islice tgt g n w = (Return (take n (remaining w0 tgt g), g'), w')
    /\ same_data w w'
    /\ remaining w0 tgt g' = drop n (remaining w0 tgt g).
Proof.
  revert g w. induction n as [|n IH]; intros g w Hcsv; simpl.
  - exists g, w. split; [by rewrite take_0 |]. split; [apply same_data_refl | done].
  - unfold bind at 1.
    destruct (next_spec g w0 w Hcsv) as ([[r g1]|] & w1 & -> & Hsame1 & Ho).
    + assert (csv w1 = csv w0) as Hcsv1 by (destruct Hsame1 as (_&_&_&->&_); done).
      destruct (IH g1 w1 Hcsv1) as (g2 & w2 & E & Hsame2 & Hrest).
      unfold bind. rewrite E. exists g2, w2. rewrite Ho. simpl.
      split; [done |]. split; [by eapply same_data_trans | done].
    + exists exhausted, w1. rewrite Ho. simpl. by rewrite remaining_exhausted.
Qed.

Lemma remaining_all (w : World) : remaining w tgt (all w) = yielded w tgt.
Proof. by rewrite yielded_eq. Qed.

Lemma drain_spec (g : Generator) (w0 w : World) :
  csv w = csv w0 ->
  exists w', drain tgt g w = (Return (remaining w0 tgt g, exhausted), w') /\ same_data w w'.
Proof.
  intros Hcsv. unfold drain, bind.
  assert (forall paths w1, csv w1 = csv w0 ->
            exists w', rest_of_datasets tgt paths w1
                       = (Return (rest_of_frame tgt (read_line <$> concat (csv w0 <$> paths))), w')
                       /\ same_data w1 w') as Hrest.
  { clear. induction paths as [|d ds IH]; intros w1 Hcsv.
    - exists w1. split; [done | apply same_data_refl].
    - destruct (IH (log (EvRead d) w1) Hcsv) as (w' & E & Hsame).
      exists w'. split.
      + simpl. unfold bind at 1, read_csv at 1. unfold bind. rewrite E, Hcsv.
        unfold ret. by rewrite fmap_app, rest_of_frame_app.
      + eapply same_data_trans; [apply same_data_log | done]. }
  destruct (Hrest (pending g) w Hcsv) as (w' & -> & Hsame). by exists w'.
Qed.

(** X1: two batches drawn one after the other by [islice] are consecutive
    slices of the stream of receipts: the first [n] receipts, then the
    next [m]; nothing is lost or repeated between batches, and what the
    generator is left with is the stream after these [n + m]. *)
Theorem islice_batches_consecutive (n m : nat) (w : World) :
  exists g1 w1 g2 w2,
    islice tgt (all w) n w = (Return (take n (yielded w tgt), g1), w1)
    /\ islice tgt g1 m w1 = (Return (take m (drop n (yielded w tgt)), g2), w2)
    /\ take n (yielded w tgt) ++ take m (drop n (yielded w tgt))
       = take (n + m) (yielded w tgt)
    /\ remaining w tgt g2 = drop (n + m) (yielded w tgt).
Proof.
  destruct (islice_spec n (all w) w w eq_refl) as (g1 & w1 & E1 & Hsame1 & Hrest1).
  assert (csv w1 = csv w) as Hcsv1 by (destruct Hsame1 as (_&_&_&->&_); done).
  destruct (islice_spec m g1 w w1 Hcsv1) as (g2 & w2 & E2 & _ & Hrest2).
  rewrite remaining_all in *. rewrite Hrest1 in *.
  exists g1, w1, g2, w2. split; [done |]. split; [done |].
  split; [by rewrite take_take_drop | by rewrite Hrest2, drop_drop].
Qed.

End Stream.

(** ** The worker and the files *)

Section Files.

Lemma node_at_insert_ne (m : gmap (list string) node) (k k' : list string) (n : node) :
  node_at m k = None -> k' <> k -> node_at (<[k := n]> m) k' = node_at m k'.
Proof.
  intros Hk Hne. destruct k' as [|c k']; [done |]. simpl. by rewrite lookup_insert_ne.
Qed.

Lemma node_at_insert_eq (m : gmap (list string) node) (k : list string) (n : node) :
  node_at m k = None -> node_at (<[k := n]> m) k = Some n.
Proof. destruct k as [|c k]; [done |]. intros _. simpl. by rewrite lookup_insert_eq. Qed.

(** Nothing that is there is lost when a missing node is made. *)
Lemma node_at_insert_keeps (m : gmap (list string) node) (k k' : list string) (n n' : node) :
  node_at m k = None -> node_at m k' = Some n' -> node_at (<[k := n]> m) k' = Some n'.
Proof.
  intros Hk Hk'. rewrite node_at_insert_ne; [done | done | congruence].
Qed.

Lemma makedirs_from_keeps (m m' : gmap (list string) node) (cur k : list string)
    (cs : list string) :
  makedirs_from m cur cs = Some (m', k) ->
  forall k' n', node_at m k' = Some n' -> node_at m' k' = Some n'.
Proof.
  revert m cur. induction cs as [|c cs IH]; intros m cur; simpl.
  - by intros [= <- <-].
  - destruct (node_at m cur) as [[]|] eqn:Hcur; [done | apply IH |].
    intros H k' n' Hk'. eapply IH; [exact H |]. by apply node_at_insert_keeps.
Qed.

Lemma os_makedirs_keeps (name : string) (w w' : World) (res : pyresult unit) :
  os_makedirs name w = (res, w') ->
  forall k n, node_at (fs w) k = Some n -> node_at (fs w') k = Some n.
Proof.
  unfold os_makedirs. case_bool_decide; [by intros [= _ <-] |].
  destruct (makedirs_from (fs w) (start w name) (split name)) as [[m k]|] eqn:Hmk;
    [| by intros [= _ <-]].
  pose proof (makedirs_from_keeps _ _ _ _ _ Hmk) as Hkeeps.
  destruct (node_at m k) as [[]|] eqn:Hk; intros [= _ <-]; simpl; [done | done |].
  intros k' n' Hk'. apply node_at_insert_keeps; auto.
Qed.

Lemma os_makedirs_same_data (name : string) (w w' : World) (res : pyresult unit) :
  os_makedirs name w = (res, w') -> same_data w w'.
Proof.
  unfold os_makedirs. case_bool_decide; [intros [= _ <-]; apply same_data_refl |].
  destruct (makedirs_from (fs w) (start w name) (split name)) as [[m k]|];
    [| intros [= _ <-]; apply same_data_refl].
  destruct (node_at m k) as [[]|]; intros [= _ <-]; by repeat split.
Qed.

(** A file made where there was nothing does not change where paths lead. *)
Lemma walk_insert (m : gmap (list string) node) (k0 cur k : list string)
    (cs : list string) (n : node) :
  node_at m k0 = None ->
  walk m cur cs = Some k -> walk (<[k0 := n]> m) cur cs = Some k.
Proof.
  intros Hk0. revert cur. induction cs as [|c cs IH]; intros cur; simpl; [done |].
  destruct (node_at m cur) as [[]|] eqn:Hcur; try done.
  rewrite (node_at_insert_keeps m k0 cur n Dir Hk0 Hcur). apply IH.
Qed.

End Files.

(** What [download_receipt] does, case by case. *)
Lemma download_receipt_cases (r : Receipt) (w : World) :
  let p := path (cwd w) r in
  exists res1 w1,
    os_makedirs (dirname p) (log (EvCall r) w) = (res1, w1)
    /\ match res1 with
       | Raise e => download_receipt r w = (Raise e, w1)
       | Return _ =>
           if os_path_exists w1 p
           then download_receipt r w = (Return ("skipped", r, Url (url r)), w1)
           else
             let w2 := log (EvGet (url r) p) w1 in
             match server w1 (url r) with
             | Refuses e => download_receipt r w = (Return ("error", r, Repr e), w2)
             | Unreachable reason => download_receipt r w = (Raise (URLError reason), w2)
             | Answers header =>
                 match resolve w1 p with
                 | None => download_receipt r w = (Raise (OSError "FileNotFoundError"), w2)
                 | Some k =>
                     match node_at (fs w1) k with
                     | Some Dir =>
                         download_receipt r w = (Raise (OSError "IsADirectoryError"), w2)
                     | _ =>
                         download_receipt r w
                         = (Return ("ok", r, Header header),
                            set_fs (<[k := File]> (fs w1)) w2)
                     end
                 end
             end
       end.
Proof.
  intros p. unfold download_receipt, bind, emit, getcwd_, exists_, ret. simpl. fold p.
  destruct (os_makedirs (dirname p) (log (EvCall r) w)) as [[[]|e] w1] eqn:Hmk;
    eexists _, w1; (split; [reflexivity |]); [| done].
  destruct (os_path_exists w1 p); simpl; [done |].
  unfold try_except_HTTPError, urlretrieve. simpl.
  destruct (server w1 (url r)) as [header|e|reason]; simpl; [| done | done].
  change (resolve (log (EvGet (url r) p) w1) p) with (resolve w1 p).
  destruct (resolve w1 p) as [k|]; simpl; [| done].
  by destruct (node_at (fs w1) k) as [[]|].
Qed.

Lemma download_receipt_with_urlretrieve (r : Receipt) :
  download_receipt_with urlretrieve r = download_receipt r.
Proof. reflexivity. Qed.

(** X2: whatever [urlretrieve] does, [download_receipt] raises exactly
    when [os.makedirs] raises, or when the path is not there and
    [urlretrieve] raises an exception that is not an [HTTPError], which
    then leaves the worker as it is; an [HTTPError] never leaves it. *)
Theorem download_receipt_raises
    (retrieve : string -> string -> M (string * HTTPMessage))
    (r : Receipt) (w w' : World) (e : exn) :
  download_receipt_with retrieve r w = (Raise e, w')
  <-> os_makedirs (dirname (path (cwd w) r)) (log (EvCall r) w) = (Raise e, w')
      \/ exists w1,
           os_makedirs (dirname (path (cwd w) r)) (log (EvCall r) w) = (Return tt, w1)
           /\ os_path_exists w1 (path (cwd w) r) = false
           /\ retrieve (url r) (path (cwd w) r) w1 = (Raise e, w')
           /\ not_HTTPError e.
Proof.
  unfold download_receipt_with, bind, emit, getcwd_, exists_, ret. simpl.
  destruct (os_makedirs (dirname (path (cwd w) r)) (log (EvCall r) w))
    as [[[]|e1] w1] eqn:Hmk.
  - destruct (os_path_exists w1 (path (cwd w) r)) eqn:Hex; simpl.
    + split; [done |]. intros [? | (w2 & [= <-] & ? & _)]; [done | congruence].
    + unfold try_except_HTTPError.
      destruct (retrieve (url r) (path (cwd w) r) w1) as [[[file_name header]|e2] w2]
        eqn:Hret; simpl.
      * split; [done |]. intros [? | (w3 & [= <-] & _ & ? & _)]; [done | congruence].
      * destruct e2 as [m|h|reason|name|m|m]; simpl;
          try (split;
               [ intros [= <- <-]; right; exists w1;
                 (split; [reflexivity |]); (split; [exact Hex |]);
                 (split; [exact Hret |]); intros h Hh; discriminate Hh
               | intros [H | (w3 & [= <-] & _ & H & _)];
                 [discriminate H | rewrite Hret in H; injection H as <- <-; reflexivity] ]).
        split; [intros H; discriminate H |].
        intros [H | (w3 & [= <-] & _ & H & Hnot)]; [discriminate H |].
        rewrite Hret in H. injection H as <- <-. by destruct (Hnot h).
  - split.
    + intros [= <- <-]. by left.
    + intros [[= <- <-] | (w2 & ? & _)]; [done | congruence].
Qed.

Lemma os_path_exists_false (w : World) (p : string) (k : list string) :
  os_path_exists w p = false -> resolve w p = Some k -> node_at (fs w) k = None.
Proof.
  intros Hex Hk. apply bool_decide_eq_false_1 in Hex. unfold stat in Hex.
  rewrite Hk in Hex. destruct (node_at (fs w) k); [| done]. by destruct Hex.
Qed.

Lemma download_receipt_when_exists (r : Receipt) (w : World) :
  os_path_exists w (path (cwd w) r) = true ->
  download_receipt r w = (Return ("skipped", r, Url (url r)), log (EvCall r) w).
Proof.
  intros Hex. destruct (download_receipt_cases r w) as (res1 & w1 & Hmk & Hcases).
  rewrite (os_makedirs_dirname_exists (log (EvCall r) w)) in Hmk;
    [| apply path_absolute | exact Hex].
  injection Hmk as <- <-.
  change (os_path_exists (log (EvCall r) w) (path (cwd w) r))
    with (os_path_exists w (path (cwd w) r)) in Hcases.
  by rewrite Hex in Hcases.
Qed.

(** X3: a receipt that has been downloaded is not downloaded again: after
    an ['ok'] result its path is a regular file, and a second call on the
    same receipt gives ['skipped'] and sends no request. *)
Theorem download_receipt_ok_then_skipped (r r' : Receipt) (a : args) (w w' : World) :
  download_receipt r w = (Return ("ok", r', a), w') ->
  os_path_isfile w' (path (cwd w) r) = true
  /\ download_receipt r w' = (Return ("skipped", r, Url (url r)), log (EvCall r) w')
  /\ requests (log (EvCall r) w') = requests w'.
Proof.
  intros Hok. destruct (download_receipt_cases r w) as (res1 & w1 & Hmk & Hcases).
  pose proof (os_makedirs_same_data _ _ _ _ Hmk) as (Hcwd & _).
  simpl in Hcwd. rewrite Hok in Hcases.
  destruct res1 as [[]|e1]; [| done].
  destruct (os_path_exists w1 _) eqn:Hex; [done |].
  destruct (server w1 (url r)); [| done | done].
  destruct (resolve w1 _) as [k|] eqn:Hk; [| done].
  pose proof (os_path_exists_false _ _ _ Hex Hk) as Hnone.
  rewrite Hnone in Hcases. injection Hcases as _ _ ->.
  assert (os_path_isfile (set_fs (<[k:=File]> (fs w1))
                            (log (EvGet (url r) (path (cwd w) r)) w1))
            (path (cwd w) r) = true) as Hfile.
  { apply bool_decide_eq_true_2. unfold stat, resolve in *. simpl.
    destruct (bool_decide (path (cwd w) r = "")); [done |].
    change (start (set_fs _ _) (path (cwd w) r)) with (start w1 (path (cwd w) r)).
    rewrite (walk_insert _ _ _ _ _ File Hnone Hk).
    by apply node_at_insert_eq. }
  split; [exact Hfile |]. split; [| done].
  rewrite <- Hcwd at 1 2. apply download_receipt_when_exists. simpl. rewrite Hcwd.
  by apply os_path_isfile_exists.
Qed.

Lemma download_receipt_ok_then_skipped_witness :
  exists w',
    os_path_isfile w' (path (cwd (sample_world serving)) sample_receipt) = true
    /\ download_receipt sample_receipt w'
       = (Return ("skipped", sample_receipt, Url (url sample_receipt)),
          log (EvCall sample_receipt) w')
    /\ requests (log (EvCall sample_receipt) w') = requests w'.
Proof.
  eexists.
  eapply (download_receipt_ok_then_skipped sample_receipt sample_receipt
            (Header [("Content-Type", "application/pdf"); ("Content-Length", "1024")])
            (sample_world serving)).
  vm_compute. reflexivity.
Defined.

(** X4: [download_receipt] tests [os.path.exists]: whatever is at the
    path of the receipt, a directory as well as a file, the result is
    ['skipped']; no request is sent and the files are left as they were,
    so that what is there is never downloaded over. *)
Theorem download_receipt_skips_what_exists (r : Receipt) (w : World) :
  os_path_exists w (path (cwd w) r) = true ->
  download_receipt r w = (Return ("skipped", r, Url (url r)), log (EvCall r) w)
  /\ fs (log (EvCall r) w) = fs w
  /\ requests (log (EvCall r) w) = requests w.
Proof.
  intros Hex. split; [by apply download_receipt_when_exists | by split].
Qed.

Lemma download_receipt_skips_what_exists_witness :
  os_path_isdir odd_world "/1/2016/123.pdf" = true
  /\ download_receipt
       {| applicant_id := PyInt 1; year := PyInt 2016; document_id := PyStr "123";
          target := "/" |} odd_world
     = (Return ("skipped",
                {| applicant_id := PyInt 1; year := PyInt 2016; document_id := PyStr "123";
                   target := "/" |},
                Url "http://www.camara.gov.br/cota-parlamentar/documentos/publ/1/2016/123.pdf"),
        log (EvCall {| applicant_id := PyInt 1; year := PyInt 2016;
                       document_id := PyStr "123"; target := "/" |}) odd_world).
Proof.
  split; [vm_compute; reflexivity |].
  apply (download_receipt_skips_what_exists
           {| applicant_id := PyInt 1; year := PyInt 2016; document_id := PyStr "123";
              target := "/" |} odd_world).
  vm_compute. reflexivity.
Defined.

(** ** The run and the stream *)

Section Reads.

Variable tgt : string.

Lemma after_reads_app (w : World) (ds ds' : list string) :
  after_reads (after_reads w ds) ds' = after_reads w (ds' ++ ds).
Proof. unfold after_reads. by rewrite foldr_app. Qed.

Lemma called_after_reads (w : World) (ds : list string) :
  called (after_reads w ds) = called w.
Proof. induction ds as [|d ds IH]; [done | exact IH]. Qed.

Lemma next_in_datasets_reads (paths : list string) (w w' : World)
    (res : pyresult (option (Receipt * Generator))) :
  next_in_datasets tgt paths w = (res, w') -> exists ds, w' = after_reads w ds.
Proof.
  revert w. induction paths as [|d ds IH]; intros w; simpl.
  - intros [= _ <-]. by exists [].
  - unfold bind, read_csv.
    destruct (next_in_frame tgt (read_line <$> csv w d)) as [[r rest]|].
    + intros [= _ <-]. by exists [d].
    + intros [ds' ->]%IH. exists (ds' ++ [d]). by rewrite <- after_reads_app.
Qed.

Lemma next_reads (g : Generator) (w w' : World)
    (res : pyresult (option (Receipt * Generator))) :
  next tgt g w = (res, w') -> exists ds, w' = after_reads w ds.
Proof.
  unfold next. destruct (next_in_frame tgt (frame g)) as [[r rest]|].
  - intros [= _ <-]. by exists [].
  - apply next_in_datasets_reads.
Qed.

Lemma islice_reads (n : nat) (g : Generator) (w w' : World)
    (res : pyresult (list Receipt * Generator)) :
  islice tgt g n w = (res, w') -> exists ds, w' = after_reads w ds.
Proof.
  revert g w w' res. induction n as [|n IH]; intros g w w' res; simpl.
  - intros [= _ <-]. by exists [].
  - unfold bind at 1. destruct (next tgt g w) as [[[[r g1]|]|e] w1] eqn:Hnext;
      apply next_reads in Hnext as [ds1 ->].
    + unfold bind. destruct (islice tgt g1 n _) as [[[rs g2]|e] w2] eqn:E;
        apply IH in E as [ds2 ->]; intros [= _ <-];
        exists (ds2 ++ ds1); by rewrite <- after_reads_app.
    + intros [= _ <-]. by exists ds1.
    + intros [= _ <-]. by exists ds1.
Qed.

Lemma drain_reads (g : Generator) (w w' : World)
    (res : pyresult (list Receipt * Generator)) :
  drain tgt g w = (res, w') -> exists ds, w' = after_reads w ds.
Proof.
  unfold drain, bind.
  assert (forall paths w1 w2 res1,
            rest_of_datasets tgt paths w1 = (res1, w2) -> exists ds, w2 = after_reads w1 ds)
    as Hrest.
  { clear. induction paths as [|d ds IH]; intros w1 w2 res1; simpl.
    - intros [= _ <-]. by exists [].
    - unfold bind at 1, read_csv at 1. unfold bind.
      destruct (rest_of_datasets tgt ds _) as [[rs|e] w3] eqn:E;
        apply IH in E as [ds' ->]; intros [= _ <-];
        exists (ds' ++ [d]); by rewrite <- after_reads_app. }
  destruct (rest_of_datasets tgt (pending g) w) as [[rs|e] w1] eqn:E;
    apply Hrest in E as [ds ->]; intros [= _ <-]; by exists ds.
Qed.

End Reads.

Lemma download_receipt_called (r : Receipt) (w w' : World) (res : pyresult result) :
  download_receipt r w = (res, w') -> called w' = called w ++ [r] /\ same_data w w'.
Proof.
  intros Hdl. destruct (download_receipt_cases r w) as (res1 & w1 & Hmk & Hcases).
  pose proof (os_makedirs_same_data _ _ _ _ Hmk) as Hsame.
  destruct (os_makedirs_frame _ _ _ _ Hmk) as (_ & _ & Htr & _).
  assert (called w1 = called w ++ [r]) as Hcalled by (unfold called; by rewrite Htr).
  assert (forall e, called (log e w1) = called w1 \/ exists r0, e = EvCall r0) as Hlog.
  { intros []; eauto. }
  rewrite Hdl in Hcases. destruct res1 as [[]|e1]; [| by injection Hcases as _ ->].
  destruct (os_path_exists w1 _); [by injection Hcases as _ -> |].
  destruct (server w1 (url r)); [| by injection Hcases as _ -> | by injection Hcases as _ ->].
  destruct (resolve w1 _) as [k|]; [| by injection Hcases as _ ->].
  destruct (node_at (fs w1) k) as [[]|]; by injection Hcases as _ ->.
Qed.

Lemma in_stream_order_step (limit : option Z) (w0 : World) (tgt : string) (s : State) :
  in_stream_order limit w0 tgt (Running s) -> in_stream_order limit w0 tgt (step tgt limit s).
Proof.
  destruct s as [w g p pos]. unfold step. simpl.
  intros (Hsame & Hexh & handed & Hcalled & Hyield).
  assert (csv w = csv w0) as Hcsv by (destruct Hsame as (_&_&_&->&_); done).
  destruct pos as [|[|r batch]]; simpl in *.
  - destruct (truth limit) eqn:Hlimit.
    + destruct (Z.ltb _ _); [done |].
      destruct (islice_spec tgt (Z.to_nat (limit_value limit - count p)) g w0 w Hcsv)
        as (g' & w' & E & Hsame' & Hrest).
      rewrite E. destruct (islice_reads _ _ _ _ _ _ E) as [ds ->]. simpl.
      split; [by eapply same_data_trans |]. split; [congruence |].
      exists handed. rewrite called_after_reads, Hrest, take_drop. done.
    + destruct (drain_spec tgt g w0 w Hcsv) as (w' & E & Hsame').
      rewrite E. destruct (drain_reads _ _ _ _ _ E) as [ds ->]. simpl.
      split; [by eapply same_data_trans |]. split; [done |].
      exists handed. rewrite called_after_reads, remaining_exhausted, app_nil_r. done.
  - destruct (truth limit) eqn:Hlimit; simpl.
    + destruct (Z.leb _ _); simpl.
      * exists handed, (remaining w0 tgt g). split; [done |]. split; [done | congruence].
      * split; [done |]. split; [done |]. by exists handed.
    + exists handed, (remaining w0 tgt g). split; [done |]. split; [done |].
      intros _. by rewrite Hexh.
  - destruct (download_receipt r w) as [[res|e] w'] eqn:Hdl; [| done].
    destruct (download_receipt_called _ _ _ _ Hdl) as [Hcalled' Hsame'].
    destruct (on_result p res) as [p'|e]; [| done]. simpl.
    split; [by eapply same_data_trans |]. split; [auto |].
    exists (handed ++ [r]).
    change (called (log (status_line p') w')) with (called w').
    rewrite Hcalled', Hcalled, Hyield, <- !app_assoc. done.
Qed.

(** The invariants of a run, together. *)
Lemma run_invariants (fuel : nat) (w : World) (tgt : string) (limit : option Z) :
  accounts w (run fuel w tgt limit)
  /\ in_stream_order limit w tgt (run fuel w tgt limit)
  /\ (forall l, limit = Some l -> 0 < l ->
        within l (run fuel w tgt limit) /\ limit_reached l (run fuel w tgt limit)).
Proof.
  unfold run. split; [| split].
  - apply run_loop_invariant; [apply accounts_step |].
    unfold run_checks.
    destruct (negb (os_path_exists w tgt)); [done |].
    destruct (negb (os_path_isdir w tgt)); [done |].
    simpl. unfold accounted. simpl. split; lia.
  - apply run_loop_invariant; [apply in_stream_order_step |].
    unfold run_checks.
    destruct (negb (os_path_exists w tgt)); [done |].
    destruct (negb (os_path_isdir w tgt)); [done |].
    simpl. split; [apply same_data_refl |]. split; [done |].
    exists []. rewrite app_nil_r. by rewrite remaining_all.
  - intros l -> Hl.
    apply (run_loop_invariant (fun c => within l c /\ limit_reached l c)).
    + intros s [Hwithin _]. split; [by apply within_step |].
      unfold step. destruct (position s) as [|[|r batch]].
      * replace (truth (Some l)) with true
          by (simpl; symmetry; apply negb_true_iff, Z.eqb_neq; lia).
        destruct (Z.ltb _ _); [done |]. by destruct (islice _ _ _ _) as [[[]|] ?].
      * replace (truth (Some l)) with true
          by (simpl; symmetry; apply negb_true_iff, Z.eqb_neq; lia).
        simpl. by destruct (Z.leb_spec l (count (progress s))).
      * destruct (download_receipt _ _) as [[res|] ?]; [| done].
        by destruct (on_result _ _).
    + unfold run_checks.
      destruct (negb (os_path_exists w tgt)); [done |].
      destruct (negb (os_path_isdir w tgt)); [done |].
      simpl. split; [lia | done].
Qed.

Lemma dispatched_called (w : World) : dispatched w = length (called w).
Proof.
  unfold dispatched, called. rewrite length_rev.
  induction (trace w) as [|e t IH]; [done |]. by destruct e; simpl; rewrite IH.
Qed.

Lemma os_path_isdir_exists (w : World) (p : string) :
  os_path_isdir w p = true -> os_path_exists w p = true.
Proof.
  intros H%bool_decide_eq_true_1. apply bool_decide_eq_true_2. rewrite H. by eexists.
Qed.

Lemma truth_positive (l : Z) : 0 < l -> truth (Some l) = true.
Proof. intros Hl. simpl. apply negb_true_iff, Z.eqb_neq. lia. Qed.

(** X5: each time [run] is back at the top of the [while] loop, and when
    it returns, the receipts handed to [download_receipt] since the start
    are a head of the stream [all] yields, once each, and the generator
    holds the rest of the stream: a new batch takes up the stream where
    the batch before has left it. *)
Theorem run_between_batches (fuel : nat) (w : World) (tgt : string) (limit : option Z) :
  match run fuel w tgt limit with
  | Running s =>
      position s = AtWhile ->
      exists handed,
        called (world s) = called w ++ handed
        /\ yielded w tgt = handed ++ remaining w tgt (receipts s)
  | Returned p w' =>
      exists handed rest,
        called w' = called w ++ handed /\ yielded w tgt = handed ++ rest
  | Raised _ _ => True
  end.
Proof.
  pose proof (run_invariants fuel w tgt limit) as (_ & Horder & _).
  destruct (run fuel w tgt limit) as [s|p w'|e w']; simpl in Horder; [| | done].
  - intros Hpos. destruct Horder as (_ & _ & handed & Hcalled & Hyield).
    exists handed. rewrite Hpos in Hyield. by split.
  - destruct Horder as (handed & rest & Hcalled & Hyield & _). by exists handed, rest.
Qed.

(** X6: a run without limit that returns has handed every receipt of the
    stream to [download_receipt], in order and once each, and its count,
    skipped and errors add up to the length of the stream. *)
Theorem run_without_limit_complete (fuel : nat) (w w' : World) (tgt : string)
    (limit : option Z) (p : Progress) :
  truth limit = false ->
  run fuel w tgt limit = Returned p w' ->
  called w' = called w ++ yielded w tgt
  /\ accounted p = Z.of_nat (length (yielded w tgt)).
Proof.
  intros Hlimit Hrun.
  pose proof (run_invariants fuel w tgt limit) as (Hacc & Horder & _).
  rewrite Hrun in Hacc, Horder. simpl in Hacc, Horder.
  destruct Horder as (handed & rest & Hcalled & Hyield & Hrest).
  rewrite (Hrest Hlimit), app_nil_r in Hyield. subst handed.
  split; [exact Hcalled |].
  destruct Hacc as [_ Hd]. rewrite !dispatched_called, Hcalled, length_app in Hd. lia.
Qed.

(** X7: with a limit above zero, a run that returns has downloaded
    exactly as many receipts as the limit says. *)
Theorem run_returns_exact_limit (fuel : nat) (w w' : World) (tgt : string) (l : Z)
    (p : Progress) :
  0 < l ->
  run fuel w tgt (Some l) = Returned p w' ->
  count p = l.
Proof.
  intros Hl Hrun.
  pose proof (run_invariants fuel w tgt (Some l)) as (_ & _ & Hlim).
  destruct (Hlim l eq_refl Hl) as [Hwithin Hreached].
  rewrite Hrun in Hwithin, Hreached. simpl in *. lia.
Qed.

(** X8: with a limit above the number of receipts the datasets hold,
    [run] never returns: its count cannot reach the limit, and the exit
    condition of the [while] loop has no other way out. *)
Theorem run_short_stream_never_returns (fuel : nat) (w : World) (tgt : string) (l : Z) :
  0 < l ->
  Z.of_nat (length (yielded w tgt)) < l ->
  forall p w', run fuel w tgt (Some l) <> Returned p w'.
Proof.
  intros Hl Hshort p w' Hrun.
  pose proof (run_invariants fuel w tgt (Some l)) as (Hacc & Horder & Hlim).
  destruct (Hlim l eq_refl Hl) as [_ Hreached].
  rewrite Hrun in Hacc, Horder, Hreached. simpl in *.
  destruct Horder as (handed & rest & Hcalled & Hyield & _).
  destruct Hacc as [_ Hd]. rewrite !dispatched_called, Hcalled, length_app in Hd.
  rewrite Hyield, length_app in Hshort. unfold accounted in Hd. lia.
Qed.

(** X9: a limit of zero is no limit: [run] does the same with [limit=0]
    (the default of the command line) as with [limit=None]. *)
Theorem run_limit_zero_unlimited (fuel : nat) (w : World) (tgt : string) :
  run fuel w tgt (Some 0) = run fuel w tgt None.
Proof.
  unfold run.
  assert (run_checks tgt (Some 0) w = run_checks tgt None w) as -> by reflexivity.
  generalize (run_checks tgt None w). induction fuel as [|fuel IH]; intros c; [done |].
  simpl. destruct c as [s| |]; [| done | done].
  assert (step tgt (Some 0) s = step tgt None s) as ->; [| apply IH].
  unfold step. by destruct (position s) as [|[|r batch]].
Qed.

(** X10: a limit below zero makes [run] raise [ValueError] as soon as the
    target has passed the checks: [islice] refuses the negative stop, no
    dataset has been read and no receipt handed to a worker. *)
Theorem run_negative_limit (fuel : nat) (w : World) (tgt : string) (l : Z) :
  l < 0 ->
  os_path_isdir w tgt = true ->
  exists message, run (S fuel) w tgt (Some l) = Raised (ValueError message) w.
Proof.
  intros Hl Hdir. unfold run, run_checks.
  rewrite (os_path_isdir_exists _ _ Hdir), Hdir. simpl.
  unfold step. simpl.
  replace (Z.eqb l 0) with false by (symmetry; apply Z.eqb_neq; lia). simpl.
  replace (Z.ltb (l - 0) 0) with true by (symmetry; apply Z.ltb_lt; lia).
  eexists. by destruct fuel.
Qed.

Lemma run_without_limit_complete_witness :
  exists w',
    called w' = called (sample_world serving) ++ yielded (sample_world serving) "receipts"
    /\ accounted sample_progress
       = Z.of_nat (length (yielded (sample_world serving) "receipts")).
Proof.
  eexists.
  apply (run_without_limit_complete 4 (sample_world serving) _ "receipts" None
           sample_progress); [reflexivity |].
  vm_compute. reflexivity.
Defined.

Lemma run_returns_exact_limit_witness : count sample_progress = 1.
Proof.
  eapply (run_returns_exact_limit 6 (sample_world serving) _ "receipts" 1 sample_progress);
    [lia |].
  vm_compute. reflexivity.
Defined.

Lemma run_short_stream_never_returns_witness :
  Z.of_nat (length (yielded (sample_world serving) "receipts")) < 5
  /\ forall p w', run 9 (sample_world serving) "receipts" (Some 5) <> Returned p w'.
Proof.
  assert (Z.of_nat (length (yielded (sample_world serving) "receipts")) < 5) as Hshort
    by (vm_compute; reflexivity).
  split; [exact Hshort |].
  apply (run_short_stream_never_returns 9 (sample_world serving) "receipts" 5);
    [lia | exact Hshort].
Defined.

Lemma run_negative_limit_witness :
  exists message,
    run 3 (sample_world serving) "receipts" (Some (-1))
    = Raised (ValueError message) (sample_world serving).
Proof.
  apply (run_negative_limit 2 (sample_world serving) "receipts" (-1)); [lia |].
  vm_compute. reflexivity.
Defined.

(** ** The directories download_receipt makes *)

Section Directories.

(** What [makedirs] has gone through leads to the directory it made. *)
Lemma makedirs_from_walk (m m' : gmap (list string) node) (cur k : list string)
    (cs : list string) :
  makedirs_from m cur cs = Some (m', k) -> walk m' cur cs = Some k.
Proof.
  revert m cur. induction cs as [|c cs IH]; intros m cur; simpl.
  - by intros [= _ <-].
  - destruct (node_at m cur) as [[]|] eqn:Hcur; [done | |]; intros H.
    + rewrite (makedirs_from_keeps _ _ _ _ _ H cur Dir Hcur). by eapply IH.
    + rewrite (makedirs_from_keeps _ _ _ _ _ H cur Dir (node_at_insert_eq _ _ _ Hcur)).
      by eapply IH.
Qed.

Lemma os_makedirs_isdir (name : string) (w w' : World) :
  os_makedirs name w = (Return tt, w') -> os_path_isdir w' name = true.
Proof.
  unfold os_makedirs. case_bool_decide as Hname; [done |].
  destruct (makedirs_from (fs w) (start w name) (split name)) as [[m k]|] eqn:Hmk;
    [| done].
  apply makedirs_from_walk in Hmk.
  destruct (node_at m k) as [[]|] eqn:Hk; [done | |]; intros [= <-];
    apply bool_decide_eq_true_2; unfold stat, resolve;
    rewrite (bool_decide_eq_false_2 _ Hname); simpl;
    change (start (set_fs _ w) name) with (start w name).
  - by rewrite Hmk.
  - by rewrite (walk_insert _ _ _ _ _ Dir Hk Hmk), (node_at_insert_eq _ _ _ Hk).
Qed.

Lemma os_path_isdir_insert (w : World) (k : list string) (n : node) (p : string)
    (e : event) :
  node_at (fs w) k = None ->
  os_path_isdir w p = true ->
  os_path_isdir (set_fs (<[k := n]> (fs w)) (log e w)) p = true.
Proof.
  intros Hk Hdir%bool_decide_eq_true_1. apply bool_decide_eq_true_2.
  unfold stat, resolve in *. simpl. destruct (bool_decide (p = "")); [done |].
  change (start (set_fs _ _) p) with (start w p).
  destruct (walk (fs w) (start w p) (split p)) as [k'|] eqn:Hw; [| done].
  rewrite (walk_insert _ _ _ _ _ n Hk Hw). by apply node_at_insert_keeps.
Qed.

(** X17: whenever [download_receipt] gives a result, whatever its
    status, the directory of the path of the receipt is a directory
    afterwards: the directories of the applicant and of the year are made
    before the request is sent, and stay when the server refuses. *)
Theorem download_receipt_makes_directory (r : Receipt) (w w' : World) (res : result) :
  download_receipt r w = (Return res, w') ->
  os_path_isdir w' (dirname (path (cwd w) r)) = true.
Proof.
  intros Hdl. destruct (download_receipt_cases r w) as (res1 & w1 & Hmk & Hcases).
  rewrite Hdl in Hcases. destruct res1 as [[]|e1]; [| done].
  apply os_makedirs_isdir in Hmk.
  destruct (os_path_exists w1 _) eqn:Hex; [by injection Hcases as _ -> |].
  destruct (server w1 (url r)); [| by injection Hcases as _ -> | done].
  destruct (resolve w1 _) as [k|] eqn:Hk; [| done].
  rewrite (os_path_exists_false _ _ _ Hex Hk) in Hcases. injection Hcases as _ ->.
  apply os_path_isdir_insert; [exact (os_path_exists_false _ _ _ Hex Hk) | exact Hmk].
Qed.

End Directories.

Lemma download_receipt_makes_directory_witness :
  exists w',
    os_path_isdir w' (dirname (path (cwd (sample_world refusing)) sample_receipt)) = true.
Proof.
  eexists.
  eapply (download_receipt_makes_directory sample_receipt (sample_world refusing) _
            ("error", sample_receipt, Repr {| http_code := 404; http_msg := "Not Found" |})).
  vm_compute. reflexivity.
Defined.

(** ** More on Receipt.path and Receipt.url *)

Section Injective.

Lemma join2_suffix (p b : string) : exists pre, join2 p b = pre +:+ b.
Proof.
  unfold join2. destruct (startswith_sep b); [by exists "" |].
  destruct (bool_decide (p = "") || endswith_sep p); [by exists p |].
  exists (p +:+ "/"). by rewrite append_assoc.
Qed.

(** X11: whatever the target and the fields, the path of a receipt is
    absolute, as the docstring of [path] says, and ends with the string
    form of [document_id] followed by [.pdf]. *)
Theorem path_absolute_pdf (wd : list string) (r : Receipt) :
  startswith_sep (path wd r) = true
  /\ exists pre, path wd r = pre +:+ py_str (document_id r) +:+ ".pdf".
Proof.
  split; [apply path_absolute |].
  unfold path, join. simpl. apply join2_suffix.
Qed.

Lemma append_inv_head (p s s' : string) : p +:+ s = p +:+ s' -> s = s'.
Proof.
  induction p as [|c p IH]; [done |]. rewrite !append_cons. intros [= H]. by apply IH.
Qed.

Lemma length_append (s t : string) :
  String.length (s +:+ t) = (String.length s + String.length t)%nat.
Proof. induction s as [|c s IH]; [done |]. rewrite append_cons. simpl. by rewrite IH. Qed.

Lemma append_inv_tail (s s' x : string) : s +:+ x = s' +:+ x -> s = s'.
Proof.
  revert s'. induction s as [|c s IH]; intros [|c' s'] H.
  - done.
  - apply (f_equal String.length) in H. rewrite !length_append in H. simpl in H. lia.
  - apply (f_equal String.length) in H. rewrite !length_append in H. simpl in H. lia.
  - rewrite !append_cons in H. injection H as -> H. f_equal. by apply IH.
Qed.

(** Two strings without separator, each followed by a separator, begin
    the same string only if they are the same. *)
Lemma plain_sep_inj (s s' t t' : string) :
  has_sep s = false -> has_sep s' = false ->
  s +:+ "/" +:+ t = s' +:+ "/" +:+ t' -> s = s' /\ t = t'.
Proof.
  revert s'. induction s as [|c s IH]; intros [|c' s'] Hs Hs' H.
  - split; [done |]. by injection H.
  - rewrite append_cons in H. injection H as <- _. done.
  - rewrite append_cons in H. injection H as -> _. done.
  - rewrite !append_cons in H. injection H as -> H. simpl in Hs, Hs'.
    apply orb_false_elim in Hs as [_ Hs]. apply orb_false_elim in Hs' as [_ Hs'].
    destruct (IH s' Hs Hs' H) as [-> ->]. done.
Qed.

Lemma pretty_Z_plain (z : Z) : plain (pretty z).
Proof.
  destruct z as [|x|x].
  - by split.
  - apply pretty_positive_plain.
  - unfold pretty, pretty_Z. apply plain_cons; [done | apply pretty_positive_plain].
Qed.

Lemma tail_inj (a a' y y' : Z) (d d' : string) :
  pretty a +:+ "/" +:+ pretty y +:+ "/" +:+ d +:+ ".pdf"
  = pretty a' +:+ "/" +:+ pretty y' +:+ "/" +:+ d' +:+ ".pdf" ->
  a = a' /\ y = y' /\ d = d'.
Proof.
  intros H.
  apply plain_sep_inj in H as [Ha H]; [| apply pretty_Z_plain | apply pretty_Z_plain].
  apply plain_sep_inj in H as [Hy H]; [| apply pretty_Z_plain | apply pretty_Z_plain].
  apply append_inv_tail in H.
  split; [by apply (inj pretty) |]. split; [by apply (inj pretty) | done].
Qed.

(** X12: receipts whose applicant and year are integers have the same
    address only if they have the same applicant, year and document: no
    two receipts of the datasets share an address. *)
Theorem url_injective (a a' y y' : Z) (d d' t t' : string) :
  url {| applicant_id := PyInt a; year := PyInt y; document_id := PyStr d; target := t |}
  = url {| applicant_id := PyInt a'; year := PyInt y'; document_id := PyStr d';
           target := t' |} ->
  a = a' /\ y = y' /\ d = d'.
Proof.
  rewrite !url_eq. simpl. intros H%append_inv_head. by apply tail_inj.
Qed.

End Injective.

Lemma url_injective_witness : 1 = 1 /\ 2016 = 2016 /\ "123" = "123".
Proof.
  apply (url_injective 1 1 2016 2016 "123" "123" "receipts" "elsewhere").
  reflexivity.
Defined.

(** ** The file of a receipt *)

Section SameFile.














End SameFile.


(** ** Receipts.datasets *)

Section Regex.

Lemma match_digits_dashes_spec (n : nat) (s rest : string) :
  match_digits_dashes n s = Some rest
  <-> exists d, s = d +:+ rest /\ String.length d = n /\ all_digits_dashes d = true.
Proof.
  revert s. induction n as [|n IH]; intros s; simpl.
  - split.
    + intros [= ->]. by exists "".
    + intros (d & -> & Hlen & _). by destruct d.
  - destruct s as [|c s].
    + split; [done |]. intros ([|c d] & H & Hlen & _); [done |].
      rewrite append_cons in H. done.
    + fold (digit_or_dash c). destruct (digit_or_dash c) eqn:Hc.
      * rewrite IH. split.
        -- intros (d & -> & Hlen & Hall). exists (String c d).
           split; [done |]. split; [by simpl; rewrite Hlen |].
           unfold all_digits_dashes in *. simpl. by rewrite Hc, Hall.
        -- intros ([|c' d] & H & Hlen & Hall); [done |].
           rewrite append_cons in H. injection H as <- ->.
           exists d. split; [done |]. split; [by injection Hlen |].
           unfold all_digits_dashes in *. simpl in Hall.
           by apply andb_prop in Hall as [_ ?].
      * split; [done |]. intros ([|c' d] & H & Hlen & Hall); [done |].
        rewrite append_cons in H. injection H as <- ->.
        unfold all_digits_dashes in Hall. simpl in Hall. by rewrite Hc in Hall.
Qed.

Lemma strip_prefix_spec (p s t : string) : strip_prefix p s = Some t <-> s = p +:+ t.
Proof.
  revert s. induction p as [|a p IH]; intros s; simpl.
  - split; [by intros [= ->] | by intros ->].
  - destruct s as [|b s]; [by split |]. rewrite append_cons.
    case_bool_decide as Hab.
    + subst b. rewrite IH. split; [by intros -> | by intros [= ->]].
    + split; [done | by intros [= ? _]].
Qed.

Lemma match_dot_xz_end_spec (s : string) :
  match_dot_xz_end s = true
  <-> exists c tail, s = String c ("xz" +:+ tail) /\ c <> newline
                     /\ (tail = "" \/ tail = String newline "").
Proof.
  unfold match_dot_xz_end. split.
  - destruct s as [|c [|x [|z rest]]]; try done.
    intros (((Hc & Hx)%andb_prop & Hz)%andb_prop & Hrest)%andb_prop.
    apply negb_true_iff, bool_decide_eq_false_1 in Hc.
    apply bool_decide_eq_true_1 in Hx as ->. apply bool_decide_eq_true_1 in Hz as ->.
    exists c, rest. split; [done |]. split; [done |].
    apply orb_prop in Hrest as [H%bool_decide_eq_true_1 | H%bool_decide_eq_true_1]; auto.
  - intros (c & tail & -> & Hc & Htail).
    change (String c ("xz" +:+ tail)) with (String c (String "x" (String "z" tail))).
    rewrite (bool_decide_eq_false_2 _ Hc). simpl.
    destruct Htail as [-> | ->]; reflexivity.
Qed.

(** X14: the file names [datasets] keeps are those made of eleven digits
    or dashes, then [current-year], [last-year] or [previous-years], then
    one character that is not a newline (the dot of the pattern is not
    escaped: any character will do, not only a dot), then [xz], and
    nothing more but for a final newline. *)
Theorem REGEX_match_iff (file_name : string) :
  REGEX_match file_name = true
  <-> exists d word c tail,
        file_name = d +:+ word +:+ String c ("xz" +:+ tail)
        /\ String.length d = 11%nat /\ all_digits_dashes d = true
        /\ word ∈ REGEX_words
        /\ c <> newline
        /\ (tail = "" \/ tail = String newline "").
Proof.
  unfold REGEX_match. split.
  - destruct (match_digits_dashes 11 file_name) as [rest|] eqn:Hd; [| done].
    apply match_digits_dashes_spec in Hd as (d & -> & Hlen & Hall).
    intros (word & Hword & H)%existsb_exists.
    destruct (strip_prefix word rest) as [t|] eqn:Ht; [| done].
    apply strip_prefix_spec in Ht as ->.
    apply match_dot_xz_end_spec in H as (c & tail & -> & Hc & Htail).
    exists d, word, c, tail. by rewrite <- list_elem_of_In in Hword.
  - intros (d & word & c & tail & -> & Hlen & Hall & Hword & Hc & Htail).
    assert (match_digits_dashes 11 (d +:+ word +:+ String c ("xz" +:+ tail))
            = Some (word +:+ String c ("xz" +:+ tail))) as ->.
    { apply match_digits_dashes_spec. by exists d. }
    apply existsb_exists. exists word. split; [by apply list_elem_of_In |].
    assert (strip_prefix word (word +:+ String c ("xz" +:+ tail))
            = Some (String c ("xz" +:+ tail))) as -> by by apply strip_prefix_spec.
    apply match_dot_xz_end_spec. by exists c, tail.
Qed.

Lemma REGEX_match_not_absolute (file_name : string) :
  REGEX_match file_name = true -> startswith_sep file_name = false.
Proof.
  unfold REGEX_match. destruct file_name as [|c s]; [done |]. simpl.
  destruct (is_digit c || bool_decide (c = "-"%char)) eqn:Hc; [| done].
  intros _. unfold is_sep. apply bool_decide_eq_false_2. intros ->. done.
Qed.

Lemma DATA_DIR_with_sep (w : World) : with_sep (DATA_DIR w) = DATA_DIR w +:+ "/".
Proof.
  unfold DATA_DIR, join. simpl. rewrite (join2_segment _ "data") by done.
  rewrite with_sep_segment by by repeat split. by rewrite append_assoc.
Qed.

(** X15: the datasets are the files of the data directory whose name the
    pattern accepts, each as [DATA_DIR/name]: a name that is accepted
    never begins with a separator, so that [os.path.join] keeps the data
    directory in front of it. *)
Theorem datasets_in_data_dir (w : World) (p : string) :
  p ∈ datasets w
  <-> exists file_name,
        file_name ∈ listdir w /\ REGEX_match file_name = true
        /\ p = DATA_DIR w +:+ "/" +:+ file_name.
Proof.
  unfold datasets. rewrite list_elem_of_fmap. split.
  - intros (name & -> & Hin). apply list_elem_of_In, filter_In in Hin as [Hin Hmatch].
    exists name. split; [by apply list_elem_of_In |]. split; [done |].
    unfold join. simpl.
    rewrite join2_segment by by apply REGEX_match_not_absolute.
    by rewrite DATA_DIR_with_sep, append_assoc.
  - intros (name & Hin & Hmatch & ->). exists name. split.
    + unfold join. simpl.
      rewrite join2_segment by by apply REGEX_match_not_absolute.
      by rewrite DATA_DIR_with_sep, append_assoc.
    + apply list_elem_of_In, filter_In. split; [by apply list_elem_of_In | done].
Qed.

End Regex.

(** ** print_report *)

Section ReportLines.

Variable naturalsize : Z -> string.

Lemma format_enumerated (index : Z) (address : string) :
  format_args "    {}. {}" [PyInt index; PyStr address]
  = "    " +:+ pretty index +:+ ". " +:+ address.
Proof.
  unfold format_args. simpl. by rewrite append_nil_r.
Qed.

Lemma print_enumerated_lookup (urls : list string) (i : nat) (address : string) :
  urls !! i = Some address ->
  print_enumerated urls !! i
  = Some ("    " +:+ pretty (Z.of_nat i + 1) +:+ ". " +:+ address).
Proof.
  intros H. unfold print_enumerated. rewrite list_lookup_imap, H. simpl.
  by rewrite format_enumerated.
Qed.

Lemma length_print_enumerated (urls : list string) :
  length (print_enumerated urls) = length urls.
Proof. apply length_imap. Qed.

Lemma section_length (heading : string) (urls : list string) :
  length (if bool_decide (urls = []) then []
          else heading :: print_enumerated urls) = report_lines urls.
Proof.
  destruct urls as [|u urls]; [done |].
  rewrite bool_decide_eq_false_2 by done.
  change (S (length (print_enumerated (u :: urls))) = S (length (u :: urls))).
  by rewrite length_print_enumerated.
Qed.

Lemma section_lookup (heading : string) (urls : list string) (i : nat) (address : string) :
  urls !! i = Some address ->
  (if bool_decide (urls = []) then [] else heading :: print_enumerated urls) !! S i
  = Some ("    " +:+ pretty (Z.of_nat i + 1) +:+ ". " +:+ address).
Proof.
  intros Hi. destruct urls as [|u urls]; [done |].
  rewrite bool_decide_eq_false_2 by done.
  change ((heading :: print_enumerated (u :: urls)) !! S i)
    with (print_enumerated (u :: urls) !! i).
  by apply print_enumerated_lookup.
Qed.

Lemma report_lines_lookup (urls : list string) (i : nat) (address : string) :
  urls !! i = Some address -> (S i < report_lines urls)%nat.
Proof.
  intros Hi%lookup_lt_Some. destruct urls; simpl in *; lia.
Qed.

(** X16: the report is one summary line with the count, commas between
    its thousands, and the size, then, when there are errors, a
    heading and the addresses that failed, numbered from 1 in the order
    they failed, then the same for the receipts that were skipped; a list
    that is empty gives no line at all. *)
Theorem print_report_lines (p : Progress) :
  length (print_report naturalsize p)
  = (1 + report_lines (errors p) + report_lines (skipped p))%nat
  /\ print_report naturalsize p !! 0%nat
     = Some ("==> Downloaded " +:+ format_thousands (count p) +:+ " files ("
             +:+ naturalsize (size p) +:+ ")                                     ")
  /\ (forall i address,
        errors p !! i = Some address ->
        print_report naturalsize p !! (2 + i)%nat
        = Some ("    " +:+ pretty (Z.of_nat i + 1) +:+ ". " +:+ address))
  /\ (forall i address,
        skipped p !! i = Some address ->
        print_report naturalsize p !! (2 + report_lines (errors p) + i)%nat
        = Some ("    " +:+ pretty (Z.of_nat i + 1) +:+ ". " +:+ address)).
Proof.
  unfold print_report. split; [| split; [| split]].
  - rewrite !length_app, !section_length. simpl. lia.
  - simpl. unfold format_args. simpl. reflexivity.
  - intros i address Hi.
    rewrite lookup_app_r by (simpl; lia). simpl.
    rewrite lookup_app_l by (rewrite section_length; by eapply report_lines_lookup).
    by apply section_lookup.
  - intros i address Hi.
    rewrite lookup_app_r by (simpl; lia). simpl.
    rewrite lookup_app_r by (rewrite section_length; lia).
    rewrite section_length.
    replace (S (report_lines (errors p) + i) - report_lines (errors p))%nat
      with (S i) by lia.
    by apply section_lookup.
Qed.

End ReportLines.
